(** * english-speech-to-text: the reactive store and the recognition session controller

    A shallow embedding of [src/js/modules/stateManager.js] (class
    [StateManager]) and [src/js/modules/speechRecognition.js] (class
    [SpeechRecognitionManager]), with the helpers of [src/js/utils/utils.js]
    and the constants of the configuration file they use.

    Conventions of the embedding.
    - JavaScript numbers that hold times, counters and limits are integers
      [Z].
    - A JavaScript string is a [string] whose characters are code units
      below 256.
    - A value that may be [undefined]/[null] or a string is an
      [option string].
    - An object is the finite map of its own properties.  Every object
      of the program also inherits the members of [Object.prototype];
      [key in object] and [object[key]] see them.  The embedding knows
      their names ([objectPrototypeKeys]) and does not follow the code
      into them: a lookup that lands on one is marked as such
      ([Beyond], [Inherited]).  [Object.prototype] is taken as the realm
      created it; the only code of the two classes that can add to it
      is a [setState] the embedding marks [Beyond].
    - Every callback runs to completion (the program is single threaded);
      the wall clock is read once per callback and passed as [now], and
      [Math.random] is an oracle of the world.
    - What a callback does to the outside (store events, document events,
      calls on the engine, timeouts it schedules) is put on a trace.  The
      subscribers of these events are observers: they do not call the
      controller back within the callback (those of the repository do
      not).
    - A closure handed to [setTimeout] is a [TimerAction]; the pending
      timeouts are part of the world and fire as inputs of the event loop.
    - Of the exceptions the engine can raise, the one of
      [recognition.start()] is an input (its message decides what the
      controller does); [recognition.stop()] is called inside a [try]
      whose [catch] is empty. *)

From Stdlib Require Import ZArith Ascii String Lia.
From stdpp Require Import gmap strings list.


#[local] Set Warnings "-register-all,-clear-no-such-hyp".
#[local] Open Scope string_scope.
#[local] Open Scope list_scope.
#[local] Open Scope Z_scope.

(** ** Strings *)

(** The class [\s] of a JavaScript regular expression, on code units below
    256: TAB, LF, VT, FF, CR, SPACE and NO-BREAK SPACE. *)
Definition is_space (c : ascii) : bool :=
  let n := nat_of_ascii c in
  ((9 <=? n)%nat && (n <=? 13)%nat) || (n =? 32)%nat || (n =? 160)%nat.

Fixpoint drop_leading_space (s : string) : string :=
  match s with
  | EmptyString => EmptyString
  | String c rest => if is_space c then drop_leading_space rest else s
  end.

Fixpoint string_rev_onto (acc s : string) : string :=
  match s with
  | EmptyString => acc
  | String c rest => string_rev_onto (String c acc) rest
  end.

Definition string_rev (s : string) : string := string_rev_onto EmptyString s.

(** [Utils.trimText]: [text.replace(/^\s+|\s+$/g, '')]. *)
Definition trimText (text : string) : string :=
  string_rev (drop_leading_space (string_rev (drop_leading_space text))).

(** A string is truthy when it is not empty. *)
Definition truthy (s : string) : bool :=
  match s with EmptyString => false | _ => true end.

(** [String.prototype.includes]. *)
Definition includes (needle hay : string) : bool :=
  match String.index 0 needle hay with Some _ => true | None => false end.

(** [String.prototype.split] with a one-character separator: the result is
    never empty, [''.split('.')] is [['']]. *)
Fixpoint split (sep : ascii) (s : string) : list string :=
  match s with
  | EmptyString => [EmptyString]
  | String c rest =>
      if Ascii.eqb c sep then EmptyString :: split sep rest
      else match split sep rest with
           | piece :: pieces => String c piece :: pieces
           | [] => [String c EmptyString]
           end
  end.

(** ** Objects and their prototype *)

(** The names of the members of [Object.prototype] (ECMA-262, 20.1.3 and
    B.2.2), which every object literal and every [{}] inherits: built-in
    functions, and under [__proto__] an accessor that answers
    [Object.prototype] itself.  All of them are truthy. *)
Definition objectPrototypeKeys : list string :=
  ["constructor"; "__defineGetter__"; "__defineSetter__"; "hasOwnProperty";
   "__lookupGetter__"; "__lookupSetter__"; "isPrototypeOf";
   "propertyIsEnumerable"; "toString"; "valueOf"; "__proto__";
   "toLocaleString"].

Definition inherited (key : string) : bool :=
  bool_decide (key ∈ objectPrototypeKeys).

(** What the embedding tells about a piece of code: [Within a], it does
    [a]; [Beyond], it reads, follows or assigns a member inherited from
    [Object.prototype], and the embedding does not tell what happens
    then. *)
Inductive Reach (A : Type) : Type :=
| Within (a : A)
| Beyond.
Arguments Within {A} a.
Arguments Beyond {A}.

(** ** The path-addressed state tree ([StateManager.getState], [setState]) *)

Module StateTree.

(** JavaScript values held in the tree.  An object is represented by its
    own string-keyed properties, and inherits from [Object.prototype];
    arrays, functions and host objects are not values of this tree. *)
Inductive Value : Type :=
| VUndefined
| VNull
| VBool (b : bool)
| VNum (z : Z)
| VStr (s : string)
| VObj (props : gmap string Value).

(** The payload of a [stateChanged] event. *)
Record StateChange := {
  path : string;
  oldValue : Value;
  newValue : Value
}.

Record Store := {
  state : gmap string Value;          (* this.state, always an object *)
  stateChanged : list StateChange     (* events emitted, newest first *)
}.

(** How a block of statements ends. *)
Inductive Completion (A : Type) : Type :=
| Normal (a : A)
| Throws.
Arguments Normal {A} a.
Arguments Throws {A}.

(** [current[key]] on an object: the own property; else the inherited
    member, if [key] names one; else [undefined]. *)
Definition prop (key : string) (props : gmap string Value) : Reach Value :=
  match props !! key with
  | Some v => Within v
  | None => if inherited key then Beyond else Within VUndefined
  end.

(** What the walk below [key] makes of [current]. *)
Definition below (key : string) (current : gmap string Value)
    (rest : Reach (Completion (gmap string Value * Value)))
    : Reach (Completion (gmap string Value * Value)) :=
  match rest with
  | Within (Normal (child', old)) =>
      Within (Normal (<[key := VObj child']> current, old))
  | Within Throws => Within Throws
  | Beyond => Beyond
  end.

(** The body of the [try] block of [setState] from the loop on, on the
    object [current].  [Within (Normal (current', oldValue))]: the leaf
    was assigned.  [Within Throws]: [in] or the assignment met a value
    that is not an object (a [TypeError]: class bodies are strict code);
    nothing was assigned before.  [Beyond]: a segment that is not an own
    property names an inherited member, so [key in current] holds and the
    code goes on with that member, or reads it as [oldValue]. *)
Fixpoint assignPath (pathArray : list string) (value : Value)
    (current : gmap string Value)
    : Reach (Completion (gmap string Value * Value)) :=
  match pathArray with
  | [] => Within Throws   (* not met: [split] returns at least one segment *)
  | [lastKey] =>
      (* const oldValue = current[lastKey]; current[lastKey] = value; *)
      match prop lastKey current with
      | Within old => Within (Normal (<[lastKey := value]> current, old))
      | Beyond => Beyond
      end
  | key :: keys =>
      (* if (!(key in current)) current[key] = {}; current = current[key]; *)
      match current !! key with
      | Some (VObj child) => below key current (assignPath keys value child)
      | Some _ => Within Throws
      | None =>
          if inherited key then Beyond
          else below key current (assignPath keys value ∅)
      end
  end.

(** [setState(path, value)]: the [catch] swallows whatever the body
    throws. *)
Definition setState (p : string) (value : Value) (s : Store) : Reach Store :=
  match assignPath (split "." p) value (state s) with
  | Within (Normal (state', old)) =>
      Within {| state := state';
                stateChanged :=
                  {| path := p; oldValue := old; newValue := value |}
                  :: stateChanged s |}
  | Within Throws => Within s
  | Beyond => Beyond
  end.

(** The loop of [getState]: [undefined] as soon as [current] is [null],
    [undefined], or a primitive (on which [in] throws, and the [catch]
    returns [undefined]), or an object without the segment; [Beyond] when
    the segment is not an own property and names an inherited member. *)
Fixpoint lookupPath (pathArray : list string) (current : Value)
    : Reach Value :=
  match pathArray with
  | [] => Within current
  | key :: keys =>
      match current with
      | VObj props =>
          match props !! key with
          | Some v => lookupPath keys v
          | None => if inherited key then Beyond else Within VUndefined
          end
      | _ => Within VUndefined
      end
  end.

(** [getState(path)]; a falsy path returns the whole tree. *)
Definition getState (p : string) (s : Store) : Reach Value :=
  if truthy p then lookupPath (split "." p) (VObj (state s))
  else Within (VObj (state s)).

End StateTree.

(** ** Data of the store and of the controller *)

(** [APP_CONFIG.SPEECH_CONFIG]. *)
Record SpeechConfig := {
  continuous : bool;
  interimResults : bool;
  maxAlternatives : Z;
  deadTime : Z;
  maxSessionTime : Z;
  watchdogInterval : Z;
  maxErrorCount : Z;
  restartDelay : Z;
  duplicateCheckTimeout : Z
}.

Definition SPEECH_CONFIG : SpeechConfig := {|
  continuous := true;
  interimResults := true;
  maxAlternatives := 1;
  deadTime := 5000;
  maxSessionTime := 60000;
  watchdogInterval := 1000;
  maxErrorCount := 10;
  restartDelay := 100;
  duplicateCheckTimeout := 1500
|}.

(** The three parts of the template literal of [Utils.generateId]:
    [`${prefix}_${Date.now()}_${Math.random()...}`]. *)
Record Id := {
  id_prefix : string;
  id_time : Z;
  id_random : string
}.

#[global] Instance Id_eq_dec : EqDecision Id.
Proof. solve_decision. Defined.

(** A [SpeechRecognition] instance as the controller configures it. *)
Record Engine := {
  instance : nat;                 (* which [new SpeechRecognition()] it is *)
  eng_continuous : bool;
  eng_interimResults : bool;
  eng_maxAlternatives : Z;
  lang : option string
}.

(** The section [state.recognition]. *)
Record RecognitionState := {
  isActive : bool;
  isListening : bool;
  rec_sessionId : option Id;
  currentText : string;
  interimText : string;
  finalText : string;
  rec_lastResultTime : Z;
  rec_errorCount : Z;
  recognitionInstance : option nat
}.

(** One property of the object passed to [updateRecognitionState]. *)
Inductive RecognitionUpdate :=
| UIsActive (b : bool)
| UIsListening (b : bool)
| USessionId (i : option Id)
| UCurrentText (s : string)
| UInterimText (s : string)
| UFinalText (s : string)
| UErrorCount (n : Z)
| URecognitionInstance (e : option nat).

Record TextHistoryEntry := {
  entry_id : Id;
  timestamp : Z;
  originalText : string;
  language : option string
}.

(** The text of an [ErrorRecord]: the entry of [ERROR_MESSAGES] it was
    taken from, or the fallback ['Unknown error occurred']. *)
Inductive ErrorMessage :=
| TableMessage (category code : string)
| UnknownErrorOccurred.

(** A message that is one of these texts. *)
Definition message_text (m : ErrorMessage) : Reach ErrorMessage :=
  Within m.
Coercion message_text : ErrorMessage >-> Reach.

(** What [mapErrorCode] returns and [setError] receives as [code]: a
    string, or the member of [Object.prototype] of the given name. *)
Inductive ErrorCode :=
| Code (code : string)
| Inherited (key : string).
Coercion Code : string >-> ErrorCode.

#[global] Instance ErrorCode_eq_dec : EqDecision ErrorCode.
Proof. solve_decision. Defined.

Record ErrorRecord := {
  err_id : Id;
  category : string;
  code : ErrorCode;
  message : Reach ErrorMessage;
  details : option string;
  err_timestamp : Z
}.

(** The parts of [StateManager.state] the controller reads and writes. *)
Record StoreState := {
  cfg_language : option string;        (* state.config.language *)
  cfg_maxTextLines : Z;                (* state.config.maxTextLines *)
  recognitionState : RecognitionState; (* state.recognition *)
  textHistory : list TextHistoryEntry; (* state.textHistory, newest first *)
  lastError : option ErrorRecord       (* state.system.lastError *)
}.

(** The fields of a [SpeechRecognitionManager]. *)
Record Manager := {
  recognition : option Engine;
  isRecognizing : bool;
  sessionId : option Id;
  watchdogTimer : option nat;
  lastResultTime : Z;
  sessionStartTime : Z;
  errorCount : Z;
  processedTexts : gset string;
  manualStop : bool;
  config : SpeechConfig
}.

(** The closures handed to [setTimeout]. *)
Inductive TimerAction :=
| AutoContinue                       (* onend: if (!isRecognizing) start() *)
| ExpireProcessedText (text : string)(* processFinalResult: processedTexts.delete *)
| EngineStart                        (* start: set lang, recognition.start() *)
| SafeRestartResume (currentLanguage : option string)
| LanguageRestart                    (* changeLanguage: start() *)
| ClearInterimText.                  (* trigger('clearInterimText') *)

Record Timer := {
  handle : nat;
  due : Z;
  action : TimerAction
}.

(** What the two components do to the outside. *)
Inductive Effect :=
| Emit_recognitionStateChanged (r : RecognitionState)
| Emit_textHistoryChanged (e : TextHistoryEntry)
| Emit_error (e : ErrorRecord)
| Trigger_interimTextRecognized (text : string)
| Trigger_textRecognized (text : string)
| Trigger_clearInterimText
| Engine_new (inst : nat)
| Engine_stop (inst : nat)
| Engine_start (inst : nat) (language : option string)
| SetTimeout (a : TimerAction) (delay : Z).

(** The controller, the store it publishes to, and their environment. *)
Record World := {
  manager : Manager;
  store : StoreState;
  timers : list Timer;          (* pending timeouts *)
  nextHandle : nat;             (* next timer handle *)
  trace : list Effect;          (* newest first *)
  speechSupported : bool;       (* window.SpeechRecognition exists *)
  constructed : nat;            (* engine instances created so far *)
  handlers : gset nat;          (* instances whose callback slots are set *)
  rng : nat -> string;          (* the successive draws of Math.random *)
  draws : nat
}.

(** The entry of an [onresult] event: [result[0].transcript] and
    [result.isFinal]. *)
Record SpeechResult := {
  transcript : string;
  isFinal : bool
}.

Record ResultEvent := {
  resultIndex : nat;
  results : list SpeechResult
}.

(** *** Field updates *)

Definition set_recognition (v : option Engine) (m : Manager) : Manager :=
  {| recognition := v; isRecognizing := isRecognizing m;
     sessionId := sessionId m; watchdogTimer := watchdogTimer m;
     lastResultTime := lastResultTime m;
     sessionStartTime := sessionStartTime m; errorCount := errorCount m;
     processedTexts := processedTexts m; manualStop := manualStop m;
     config := config m |}.

Definition set_isRecognizing (v : bool) (m : Manager) : Manager :=
  {| recognition := recognition m; isRecognizing := v;
     sessionId := sessionId m; watchdogTimer := watchdogTimer m;
     lastResultTime := lastResultTime m;
     sessionStartTime := sessionStartTime m; errorCount := errorCount m;
     processedTexts := processedTexts m; manualStop := manualStop m;
     config := config m |}.

Definition set_sessionId (v : option Id) (m : Manager) : Manager :=
  {| recognition := recognition m; isRecognizing := isRecognizing m;
     sessionId := v; watchdogTimer := watchdogTimer m;
     lastResultTime := lastResultTime m;
     sessionStartTime := sessionStartTime m; errorCount := errorCount m;
     processedTexts := processedTexts m; manualStop := manualStop m;
     config := config m |}.

Definition set_watchdogTimer (v : option nat) (m : Manager) : Manager :=
  {| recognition := recognition m; isRecognizing := isRecognizing m;
     sessionId := sessionId m; watchdogTimer := v;
     lastResultTime := lastResultTime m;
     sessionStartTime := sessionStartTime m; errorCount := errorCount m;
     processedTexts := processedTexts m; manualStop := manualStop m;
     config := config m |}.

Definition set_lastResultTime (v : Z) (m : Manager) : Manager :=
  {| recognition := recognition m; isRecognizing := isRecognizing m;
     sessionId := sessionId m; watchdogTimer := watchdogTimer m;
     lastResultTime := v;
     sessionStartTime := sessionStartTime m; errorCount := errorCount m;
     processedTexts := processedTexts m; manualStop := manualStop m;
     config := config m |}.

Definition set_sessionStartTime (v : Z) (m : Manager) : Manager :=
  {| recognition := recognition m; isRecognizing := isRecognizing m;
     sessionId := sessionId m; watchdogTimer := watchdogTimer m;
     lastResultTime := lastResultTime m;
     sessionStartTime := v; errorCount := errorCount m;
     processedTexts := processedTexts m; manualStop := manualStop m;
     config := config m |}.

Definition set_errorCount (v : Z) (m : Manager) : Manager :=
  {| recognition := recognition m; isRecognizing := isRecognizing m;
     sessionId := sessionId m; watchdogTimer := watchdogTimer m;
     lastResultTime := lastResultTime m;
     sessionStartTime := sessionStartTime m; errorCount := v;
     processedTexts := processedTexts m; manualStop := manualStop m;
     config := config m |}.

Definition set_processedTexts (v : gset string) (m : Manager) : Manager :=
  {| recognition := recognition m; isRecognizing := isRecognizing m;
     sessionId := sessionId m; watchdogTimer := watchdogTimer m;
     lastResultTime := lastResultTime m;
     sessionStartTime := sessionStartTime m; errorCount := errorCount m;
     processedTexts := v; manualStop := manualStop m;
     config := config m |}.

Definition set_manualStop (v : bool) (m : Manager) : Manager :=
  {| recognition := recognition m; isRecognizing := isRecognizing m;
     sessionId := sessionId m; watchdogTimer := watchdogTimer m;
     lastResultTime := lastResultTime m;
     sessionStartTime := sessionStartTime m; errorCount := errorCount m;
     processedTexts := processedTexts m; manualStop := v;
     config := config m |}.

Definition set_config (v : SpeechConfig) (m : Manager) : Manager :=
  {| recognition := recognition m; isRecognizing := isRecognizing m;
     sessionId := sessionId m; watchdogTimer := watchdogTimer m;
     lastResultTime := lastResultTime m;
     sessionStartTime := sessionStartTime m; errorCount := errorCount m;
     processedTexts := processedTexts m; manualStop := manualStop m;
     config := v |}.

Definition set_lang (v : option string) (e : Engine) : Engine :=
  {| instance := instance e; eng_continuous := eng_continuous e;
     eng_interimResults := eng_interimResults e;
     eng_maxAlternatives := eng_maxAlternatives e; lang := v |}.

Definition with_manager (f : Manager -> Manager) (w : World) : World :=
  {| manager := f (manager w); store := store w; timers := timers w;
     nextHandle := nextHandle w; trace := trace w;
     speechSupported := speechSupported w; constructed := constructed w;
     handlers := handlers w; rng := rng w; draws := draws w |}.

Definition with_store (f : StoreState -> StoreState) (w : World) : World :=
  {| manager := manager w; store := f (store w); timers := timers w;
     nextHandle := nextHandle w; trace := trace w;
     speechSupported := speechSupported w; constructed := constructed w;
     handlers := handlers w; rng := rng w; draws := draws w |}.

Definition with_timers (f : list Timer -> list Timer) (w : World) : World :=
  {| manager := manager w; store := store w; timers := f (timers w);
     nextHandle := nextHandle w; trace := trace w;
     speechSupported := speechSupported w; constructed := constructed w;
     handlers := handlers w; rng := rng w; draws := draws w |}.

Definition with_handlers (f : gset nat -> gset nat) (w : World) : World :=
  {| manager := manager w; store := store w; timers := timers w;
     nextHandle := nextHandle w; trace := trace w;
     speechSupported := speechSupported w; constructed := constructed w;
     handlers := f (handlers w); rng := rng w; draws := draws w |}.

(** An effect is observed. *)
Definition log (e : Effect) (w : World) : World :=
  {| manager := manager w; store := store w; timers := timers w;
     nextHandle := nextHandle w; trace := e :: trace w;
     speechSupported := speechSupported w; constructed := constructed w;
     handlers := handlers w; rng := rng w; draws := draws w |}.

(** [setTimeout(a, delay)] at time [now]. *)
Definition setTimeout (a : TimerAction) (delay now : Z) (w : World) : World :=
  {| manager := manager w; store := store w;
     timers := {| handle := nextHandle w; due := now + delay; action := a |}
               :: timers w;
     nextHandle := S (nextHandle w);
     trace := SetTimeout a delay :: trace w;
     speechSupported := speechSupported w; constructed := constructed w;
     handlers := handlers w; rng := rng w; draws := draws w |}.

(** [Utils.generateId(prefix)] at time [now]. *)
Definition generateId (prefix : string) (now : Z) (w : World) : Id * World :=
  ({| id_prefix := prefix; id_time := now; id_random := rng w (draws w) |},
   {| manager := manager w; store := store w; timers := timers w;
      nextHandle := nextHandle w; trace := trace w;
      speechSupported := speechSupported w; constructed := constructed w;
      handlers := handlers w; rng := rng w; draws := S (draws w) |}).

(** ** The store operations the controller uses *)

(** [Object.assign(currentState, updates)], one property at a time. *)
Definition assign (r : RecognitionState) (u : RecognitionUpdate)
    : RecognitionState :=
  match u with
  | UIsActive b =>
      {| isActive := b; isListening := isListening r;
         rec_sessionId := rec_sessionId r; currentText := currentText r;
         interimText := interimText r; finalText := finalText r;
         rec_lastResultTime := rec_lastResultTime r;
         rec_errorCount := rec_errorCount r;
         recognitionInstance := recognitionInstance r |}
  | UIsListening b =>
      {| isActive := isActive r; isListening := b;
         rec_sessionId := rec_sessionId r; currentText := currentText r;
         interimText := interimText r; finalText := finalText r;
         rec_lastResultTime := rec_lastResultTime r;
         rec_errorCount := rec_errorCount r;
         recognitionInstance := recognitionInstance r |}
  | USessionId i =>
      {| isActive := isActive r; isListening := isListening r;
         rec_sessionId := i; currentText := currentText r;
         interimText := interimText r; finalText := finalText r;
         rec_lastResultTime := rec_lastResultTime r;
         rec_errorCount := rec_errorCount r;
         recognitionInstance := recognitionInstance r |}
  | UCurrentText s =>
      {| isActive := isActive r; isListening := isListening r;
         rec_sessionId := rec_sessionId r; currentText := s;
         interimText := interimText r; finalText := finalText r;
         rec_lastResultTime := rec_lastResultTime r;
         rec_errorCount := rec_errorCount r;
         recognitionInstance := recognitionInstance r |}
  | UInterimText s =>
      {| isActive := isActive r; isListening := isListening r;
         rec_sessionId := rec_sessionId r; currentText := currentText r;
         interimText := s; finalText := finalText r;
         rec_lastResultTime := rec_lastResultTime r;
         rec_errorCount := rec_errorCount r;
         recognitionInstance := recognitionInstance r |}
  | UFinalText s =>
      {| isActive := isActive r; isListening := isListening r;
         rec_sessionId := rec_sessionId r; currentText := currentText r;
         interimText := interimText r; finalText := s;
         rec_lastResultTime := rec_lastResultTime r;
         rec_errorCount := rec_errorCount r;
         recognitionInstance := recognitionInstance r |}
  | UErrorCount n =>
      {| isActive := isActive r; isListening := isListening r;
         rec_sessionId := rec_sessionId r; currentText := currentText r;
         interimText := interimText r; finalText := finalText r;
         rec_lastResultTime := rec_lastResultTime r;
         rec_errorCount := n;
         recognitionInstance := recognitionInstance r |}
  | URecognitionInstance e =>
      {| isActive := isActive r; isListening := isListening r;
         rec_sessionId := rec_sessionId r; currentText := currentText r;
         interimText := interimText r; finalText := finalText r;
         rec_lastResultTime := rec_lastResultTime r;
         rec_errorCount := rec_errorCount r;
         recognitionInstance := e |}
  end.

Definition set_recognitionState (r : RecognitionState) (s : StoreState)
    : StoreState :=
  {| cfg_language := cfg_language s; cfg_maxTextLines := cfg_maxTextLines s;
     recognitionState := r; textHistory := textHistory s;
     lastError := lastError s |}.

Definition set_textHistory (h : list TextHistoryEntry) (s : StoreState)
    : StoreState :=
  {| cfg_language := cfg_language s; cfg_maxTextLines := cfg_maxTextLines s;
     recognitionState := recognitionState s; textHistory := h;
     lastError := lastError s |}.

Definition set_lastError (e : option ErrorRecord) (s : StoreState)
    : StoreState :=
  {| cfg_language := cfg_language s; cfg_maxTextLines := cfg_maxTextLines s;
     recognitionState := recognitionState s; textHistory := textHistory s;
     lastError := e |}.

Definition set_cfg_language (l : option string) (s : StoreState)
    : StoreState :=
  {| cfg_language := l; cfg_maxTextLines := cfg_maxTextLines s;
     recognitionState := recognitionState s; textHistory := textHistory s;
     lastError := lastError s |}.

Definition set_cfg_maxTextLines (n : Z) (s : StoreState) : StoreState :=
  {| cfg_language := cfg_language s; cfg_maxTextLines := n;
     recognitionState := recognitionState s; textHistory := textHistory s;
     lastError := lastError s |}.

(** [stateManager.updateRecognitionState(updates)]: merge, then emit
    [recognitionStateChanged] with the merged section. *)
Definition updateRecognitionState (updates : list RecognitionUpdate)
    (w : World) : World :=
  let currentState := fold_left assign updates (recognitionState (store w)) in
  log (Emit_recognitionStateChanged currentState)
      (with_store (set_recognitionState currentState) w).

(** The body of [addTextHistory] once the entry is built: [unshift], the
    cap ([0] means no cap), then [splice(maxLines)]. *)
Definition unshift_capped (maxLines : Z) (newEntry : TextHistoryEntry)
    (history : list TextHistoryEntry) : list TextHistoryEntry :=
  let history := newEntry :: history in
  if (0 <? maxLines) && (maxLines <? Z.of_nat (length history))
  then take (Z.to_nat maxLines) history
  else history.

(** [stateManager.addTextHistory({originalText, language})]. *)
Definition addTextHistory (text : string) (language : option string)
    (now : Z) (w : World) : World :=
  let '(id, w) := generateId "text" now w in
  let newEntry := {| entry_id := id; timestamp := now;
                     originalText := text; language := language |} in
  let w := with_store
             (fun s => set_textHistory
                         (unshift_capped (cfg_maxTextLines s) newEntry
                                         (textHistory s)) s) w in
  log (Emit_textHistoryChanged newEntry) w.

(** The tables of [APP_CONFIG.ERROR_MESSAGES]. *)
Definition ERROR_TABLES : list string :=
  ["SPEECH_RECOGNITION"; "TRANSLATION"; "SYSTEM"].

(** The keys of [APP_CONFIG.ERROR_MESSAGES]. *)
Definition ERROR_MESSAGES (category code : string) : bool :=
  if String.eqb category "SPEECH_RECOGNITION" then
    bool_decide (code ∈ ["NOT_ALLOWED"; "NO_SPEECH"; "ABORTED";
                         "AUDIO_CAPTURE"; "NETWORK"; "NOT_SUPPORTED"])
  else if String.eqb category "TRANSLATION" then
    bool_decide (code ∈ ["API_KEY_MISSING"; "API_ERROR"; "RATE_LIMIT";
                         "INVALID_RESPONSE"; "NETWORK_ERROR";
                         "TEXT_TOO_LONG"])
  else if String.eqb category "SYSTEM" then
    bool_decide (code ∈ ["BROWSER_NOT_SUPPORTED"; "STORAGE_ERROR";
                         "INITIALIZATION_FAILED"])
  else false.

(** [Utils.getErrorMessage(category, code)]:
    [ERROR_MESSAGES[category]?.[code] || 'Unknown error occurred'].
    Both indices see the members of [Object.prototype]: a category that
    names one, and a code that names one in a table that has no such code
    of its own, lead [Beyond].  A category that is no property at all
    ends the chain.  A code that is not a string is turned into one to
    serve as a key (the source text of a built-in function, or
    ["[object Object]"]), which is no property of a table. *)
Definition getErrorMessage (category : string) (code : ErrorCode)
    : Reach ErrorMessage :=
  if inherited category then Beyond
  else
    match code with
    | Code code =>
        if ERROR_MESSAGES category code then TableMessage category code
        else if bool_decide (category ∈ ERROR_TABLES) && inherited code
             then Beyond
             else UnknownErrorOccurred
    | Inherited _ => UnknownErrorOccurred
    end.

(** [stateManager.setError(category, code, details)]. *)
Definition setError (category : string) (code : ErrorCode)
    (details : option string) (now : Z) (w : World) : World :=
  let '(id, w) := generateId "error" now w in
  let error := {| err_id := id; category := category; code := code;
                  message := getErrorMessage category code;
                  details := details; err_timestamp := now |} in
  log (Emit_error error) (with_store (set_lastError (Some error)) w).

(** [stateManager.getState('config.language') || 'en-US']. *)
Definition languageOrDefault (w : World) : option string :=
  match cfg_language (store w) with
  | Some l => if truthy l then Some l else Some "en-US"
  | None => Some "en-US"
  end.

(** ** The controller ([SpeechRecognitionManager]) *)

(** [initializeRecognition()], with [setupRecognitionConfig] and
    [setupEventHandlers]. *)
Definition initializeRecognition (now : Z) (w : World) : bool * World :=
  if speechSupported w then
    let e := {| instance := constructed w;
                eng_continuous := continuous (config (manager w));
                eng_interimResults := interimResults (config (manager w));
                eng_maxAlternatives := maxAlternatives (config (manager w));
                lang := languageOrDefault w |} in
    (true,
     {| manager := set_recognition (Some e) (manager w);
        store := store w; timers := timers w; nextHandle := nextHandle w;
        trace := Engine_new (instance e) :: trace w;
        speechSupported := speechSupported w;
        constructed := S (constructed w);
        handlers := {[ instance e ]} ∪ handlers w;
        rng := rng w; draws := draws w |})
  else
    (false, setError "SPEECH_RECOGNITION" "NOT_SUPPORTED" None now w).

(** [stopWatchdog()]: [clearInterval] and forget the handle. *)
Definition stopWatchdog (w : World) : World :=
  with_manager (set_watchdogTimer None) w.

(** [forceStopRecognition()]: [recognition.stop()], whatever it throws is
    ignored. *)
Definition forceStopRecognition (w : World) : World :=
  match recognition (manager w) with
  | Some e => log (Engine_stop (instance e)) w
  | None => w
  end.

(** [resetInternalState()]. *)
Definition resetInternalState (w : World) : World :=
  stopWatchdog (with_manager (set_isRecognizing false) w).

(** [resetStateManagerState(clearTexts)]. *)
Definition resetStateManagerState (clearTexts : bool) (w : World) : World :=
  updateRecognitionState
    ([UIsActive false; UIsListening false]
     ++ (if clearTexts then [UCurrentText ""; UInterimText ""] else []))
    w.

(** [delays.forEach(delay => setTimeout(() => trigger('clearInterimText'),
    delay))]. *)
Definition clearInterimAfter (delays : list Z) (now : Z) (w : World)
    : World :=
  fold_left (fun w delay => setTimeout ClearInterimText delay now w) delays w.

(** [clearInterimTextReliably()]. *)
Definition clearInterimTextReliably (now : Z) (w : World) : World :=
  clearInterimAfter [10; 50] now (log Trigger_clearInterimText w).

(** [performFullReset(clearTexts)]. *)
Definition performFullReset (clearTexts : bool) (now : Z) (w : World)
    : World :=
  clearInterimTextReliably now
    (resetStateManagerState clearTexts
       (forceStopRecognition (resetInternalState w))).

(** [startWatchdog()]: the interval whose handle is kept is the only live
    one; its callback is [watchdogTick]. *)
Definition startWatchdog (w : World) : World :=
  let w := stopWatchdog w in
  {| manager := set_watchdogTimer (Some (nextHandle w)) (manager w);
     store := store w; timers := timers w; nextHandle := S (nextHandle w);
     trace := trace w; speechSupported := speechSupported w;
     constructed := constructed w; handlers := handlers w;
     rng := rng w; draws := draws w |}.

(** [start()]. *)
Definition start (now : Z) (w : World) : bool * World :=
  let '(ok, w) :=
    match recognition (manager w) with
    | None => initializeRecognition now w
    | Some _ => (true, w)
    end in
  if negb ok then
    (false, setError "SPEECH_RECOGNITION" "NOT_SUPPORTED" None now w)
  else if isRecognizing (manager w) then (true, w)
  else
    let w := forceStopRecognition w in
    let w := resetInternalState w in
    (true, setTimeout EngineStart (restartDelay (config (manager w))) now w).

(** [stop()]. *)
Definition stop (now : Z) (w : World) : bool * World :=
  match recognition (manager w) with
  | None => (true, w)
  | Some _ =>
      let w := with_manager (set_manualStop true) w in
      let w := performFullReset true now w in
      (true, clearInterimAfter [100; 200] now w)
  end.

(** [safeRestart()]. *)
Definition safeRestart (now : Z) (w : World) : World :=
  let currentLanguage := cfg_language (store w) in
  let w := performFullReset true now w in
  let w := with_manager (set_errorCount 0) w in
  let w := updateRecognitionState [UErrorCount 0] w in
  setTimeout (SafeRestartResume currentLanguage)
             (restartDelay (config (manager w))) now w.

(** The two timeouts the watchdog looks for. *)
Definition isResultTimeout (now : Z) (m : Manager) : bool :=
  deadTime (config m) <? now - lastResultTime m.

Definition isSessionTimeout (now : Z) (m : Manager) : bool :=
  maxSessionTime (config m) <? now - sessionStartTime m.

(** The callback of the watchdog interval. *)
Definition watchdogTick (now : Z) (w : World) : World :=
  if negb (isRecognizing (manager w)) then w
  else if isResultTimeout now (manager w) || isSessionTimeout now (manager w)
  then safeRestart now w
  else w.

(** [processFinalResult(text)]; the function has no [await], its body runs
    within the call. *)
Definition processFinalResult (text : string) (now : Z) (w : World)
    : World :=
  let trimmedText := trimText text in
  if negb (truthy trimmedText) then w
  else if bool_decide (trimmedText ∈ processedTexts (manager w)) then w
  else
    let w := with_manager
               (fun m => set_processedTexts
                           ({[ trimmedText ]} ∪ processedTexts m) m) w in
    let w := setTimeout (ExpireProcessedText trimmedText)
                        (duplicateCheckTimeout (config (manager w))) now w in
    let w := addTextHistory trimmedText (cfg_language (store w)) now w in
    let w := updateRecognitionState
               [UFinalText trimmedText; UCurrentText trimmedText] w in
    log (Trigger_textRecognized trimmedText) w.

(** The loop of [handleResult]: the interim and the final transcript of
    the results from [resultIndex] on. *)
Definition transcripts (event : ResultEvent) : string * string :=
  fold_left
    (fun '(interimTranscript, finalTranscript) result =>
       if isFinal result
       then (interimTranscript, finalTranscript +:+ transcript result)
       else (interimTranscript +:+ transcript result, finalTranscript))
    (drop (resultIndex event) (results event))
    ("", "").

(** [handleResult(event)] after its first statement
    [const currentSessionId = this.sessionId]. *)
Definition handleResult_from (currentSessionId : option Id)
    (event : ResultEvent) (now : Z) (w : World) : World :=
  let w := with_manager (set_lastResultTime now) w in
  let '(interimTranscript, finalTranscript) := transcripts event in
  if negb (bool_decide (currentSessionId = sessionId (manager w))) then w
  else
    let w :=
      if truthy interimTranscript then
        log (Trigger_interimTextRecognized interimTranscript)
            (updateRecognitionState
               [UInterimText interimTranscript;
                UCurrentText (finalTranscript +:+ interimTranscript)] w)
      else w in
    if truthy finalTranscript then processFinalResult finalTranscript now w
    else w.

(** [handleResult(event)]. *)
Definition handleResult (event : ResultEvent) (now : Z) (w : World)
    : World :=
  handleResult_from (sessionId (manager w)) event now w.

(** [mapErrorCode(error)]: [errorMap[error] || 'UNKNOWN'].  [errorMap] is
    an object literal with six own properties; for the name of a member
    of [Object.prototype] the index answers that member, which is truthy
    and is returned. *)
Definition mapErrorCode (error : string) : ErrorCode :=
  if String.eqb error "not-allowed" then "NOT_ALLOWED"
  else if String.eqb error "no-speech" then "NO_SPEECH"
  else if String.eqb error "aborted" then "ABORTED"
  else if String.eqb error "audio-capture" then "AUDIO_CAPTURE"
  else if String.eqb error "network" then "NETWORK"
  else if String.eqb error "timeout" then "TIMEOUT"
  else if inherited error then Inherited error
  else "UNKNOWN".

Definition criticalErrors : list string :=
  ["not-allowed"; "service-not-allowed"].

(** [handleError(event)], [error] being [event.error]. *)
Definition handleError (error : string) (now : Z) (w : World) : World :=
  let w := with_manager (fun m => set_errorCount (errorCount m + 1) m) w in
  let errorCode := mapErrorCode error in
  let w := updateRecognitionState [UErrorCount (errorCount (manager w))] w in
  if bool_decide (error ∈ criticalErrors) then
    snd (stop now
           (setError "SPEECH_RECOGNITION" errorCode (Some error) now w))
  else if maxErrorCount (config (manager w)) <=? errorCount (manager w) then
    snd (stop now w)
  else w.

(** The [onstart] handler. *)
Definition onstart (now : Z) (w : World) : World :=
  let w := with_manager (set_isRecognizing true) w in
  let '(id, w) := generateId "session" now w in
  let w := with_manager
             (fun m => set_errorCount 0
                         (set_sessionStartTime now
                            (set_lastResultTime now
                               (set_sessionId (Some id) m)))) w in
  let w := updateRecognitionState
             [UIsActive true; UIsListening true; USessionId (Some id);
              URecognitionInstance
                (option_map instance (recognition (manager w)))] w in
  startWatchdog w.

(** The [onend] handler. *)
Definition onend (now : Z) (w : World) : World :=
  let w := with_manager (set_isRecognizing false) w in
  let w := stopWatchdog w in
  let w :=
    if negb (manualStop (manager w)) then
      setTimeout AutoContinue (restartDelay (config (manager w))) now
        (updateRecognitionState [UIsActive true; UIsListening false] w)
    else
      log Trigger_clearInterimText
          (resetStateManagerState true (resetInternalState w)) in
  with_manager (set_manualStop false) w.

(** [changeLanguage(language)]. *)
Definition changeLanguage (language : string) (now : Z) (w : World)
    : bool * World :=
  let wasRecognizing := isRecognizing (manager w) in
  let w := if wasRecognizing then snd (stop now w) else w in
  let w := with_manager
             (fun m => set_recognition
                         (option_map (set_lang (Some language))
                                     (recognition m)) m) w in
  let w := if wasRecognizing
           then setTimeout LanguageRestart
                           (restartDelay (config (manager w))) now w
           else w in
  (true, w).

(** [destroy()]. *)
Definition destroy (now : Z) (w : World) : World :=
  let w := snd (stop now w) in
  match recognition (manager w) with
  | Some e =>
      with_manager (set_recognition None)
        (with_handlers (fun h => h ∖ {[ instance e ]}) w)
  | None => w
  end.

(** [updateConfig(newConfig)], [newConfig] naming every option. *)
Definition updateConfig (newConfig : SpeechConfig) (w : World) : World :=
  with_manager (set_config newConfig) w.

(** The message of the [TypeError] of [this.recognition.lang = language]
    on a null handle. *)
Definition nullHandleMessage : string :=
  "Cannot set properties of null (setting 'lang')".

(** The callback [start()] hands to [setTimeout].  [startThrows] is what
    [recognition.start()] answers: [None] when it returns, the message of
    the exception when it throws. *)
Definition engineStart (startThrows : option string) (now : Z) (w : World)
    : World :=
  if isRecognizing (manager w) then w
  else
    match recognition (manager w) with
    | None =>
        setError "SPEECH_RECOGNITION" "ABORTED" (Some nullHandleMessage) now
                 (resetInternalState w)
    | Some e =>
        let language := languageOrDefault w in
        let w := with_manager
                   (set_recognition (Some (set_lang language e))) w in
        let w := log (Engine_start (instance e) language) w in
        match startThrows with
        | None => w
        | Some msg =>
            if includes "already started" msg then w
            else setError "SPEECH_RECOGNITION" "ABORTED" (Some msg) now
                          (resetInternalState w)
        end
    end.

(** The callback [safeRestart()] hands to [setTimeout]. *)
Definition safeRestartResume (currentLanguage : option string) (now : Z)
    (w : World) : World :=
  let w := snd (initializeRecognition now w) in
  let w := with_manager
             (fun m => set_recognition
                         (option_map (set_lang currentLanguage)
                                     (recognition m)) m) w in
  snd (start now w).

(** A timeout fires. *)
Definition runTimer (a : TimerAction) (startThrows : option string)
    (now : Z) (w : World) : World :=
  match a with
  | AutoContinue =>
      if negb (isRecognizing (manager w)) then snd (start now w) else w
  | ExpireProcessedText text =>
      with_manager
        (fun m => set_processedTexts (processedTexts m ∖ {[ text ]}) m) w
  | EngineStart => engineStart startThrows now w
  | SafeRestartResume currentLanguage =>
      safeRestartResume currentLanguage now w
  | LanguageRestart => snd (start now w)
  | ClearInterimText => log Trigger_clearInterimText w
  end.

(** ** The event loop *)

(** What can happen to the controller: calls of its methods, writes of the
    user interface to the configuration in the store, callbacks of an
    engine instance, a tick of the watchdog interval, a timeout. *)
Inductive Input :=
| CallStart
| CallStop
| CallChangeLanguage (language : string)
| CallDestroy
| CallUpdateConfig (newConfig : SpeechConfig)
| SetLanguage (language : option string)
| SetMaxTextLines (n : Z)
| OnStart (inst : nat)
| OnEnd (inst : nat)
| OnResult (inst : nat) (event : ResultEvent)
| OnError (inst : nat) (error : string)
| WatchdogTick
| TimerFired (h : nat) (startThrows : option string).

Definition findTimer (h : nat) (ts : list Timer) : option Timer :=
  List.find (fun t => Nat.eqb (handle t) h) ts.

Definition removeTimer (h : nat) (ts : list Timer) : list Timer :=
  List.filter (fun t => negb (Nat.eqb (handle t) h)) ts.

(** One turn of the event loop at time [now].  A callback of an instance
    whose slots were cleared, a tick of a cleared interval and a timeout
    that is not pending or not due do not run. *)
Definition step (now : Z) (i : Input) (w : World) : World :=
  match i with
  | CallStart => snd (start now w)
  | CallStop => snd (stop now w)
  | CallChangeLanguage language => snd (changeLanguage language now w)
  | CallDestroy => destroy now w
  | CallUpdateConfig newConfig => updateConfig newConfig w
  | SetLanguage language => with_store (set_cfg_language language) w
  | SetMaxTextLines n => with_store (set_cfg_maxTextLines n) w
  | OnStart inst =>
      if bool_decide (inst ∈ handlers w) then onstart now w else w
  | OnEnd inst =>
      if bool_decide (inst ∈ handlers w) then onend now w else w
  | OnResult inst event =>
      if bool_decide (inst ∈ handlers w) then handleResult event now w
      else w
  | OnError inst error =>
      if bool_decide (inst ∈ handlers w) then handleError error now w
      else w
  | WatchdogTick =>
      match watchdogTimer (manager w) with
      | Some _ => watchdogTick now w
      | None => w
      end
  | TimerFired h startThrows =>
      match findTimer h (timers w) with
      | Some t =>
          if due t <=? now
          then runTimer (action t) startThrows now
                        (with_timers (removeTimer h) w)
          else w
      | None => w
      end
  end.

Fixpoint run (inputs : list (Z * Input)) (w : World) : World :=
  match inputs with
  | [] => w
  | (now, i) :: rest => run rest (step now i w)
  end.

(** [new StateManager()] and [new SpeechRecognitionManager()] at time
    [now]: the sections of [initializeState], the fields of the
    constructor, then [initializeRecognition()]. *)
Definition construct (supported : bool) (random : nat -> string)
    (language : option string) (maxTextLines : Z) (now : Z) : World :=
  snd (initializeRecognition now
    {| manager :=
         {| recognition := None; isRecognizing := false; sessionId := None;
            watchdogTimer := None; lastResultTime := 0;
            sessionStartTime := 0; errorCount := 0; processedTexts := ∅;
            manualStop := false; config := SPEECH_CONFIG |};
       store :=
         {| cfg_language := language; cfg_maxTextLines := maxTextLines;
            recognitionState :=
              {| isActive := false; isListening := false;
                 rec_sessionId := None; currentText := "";
                 interimText := ""; finalText := "";
                 rec_lastResultTime := 0; rec_errorCount := 0;
                 recognitionInstance := None |};
            textHistory := []; lastError := None |};
       timers := []; nextHandle := 0%nat; trace := [];
       speechSupported := supported; constructed := 0%nat; handlers := ∅;
       rng := random; draws := 0%nat |}).

(** ** Observations used to state the properties *)

Module TreeFacts.
Import StateTree.

Definition is_object (v : Value) : bool :=
  match v with VObj _ => true | _ => false end.


(** No segment of the path names a member of [Object.prototype]. *)
Definition plain (pathArray : list string) : bool :=
  forallb (fun key => negb (inherited key)) pathArray.

(** A tree shaped like the one of [initializeState]. *)
Definition sample : Store :=
  {| state :=
       {[ "config" := VObj {[ "language" := VStr "en-US";
                              "maxTextLines" := VNum 50 ]};
          "recognition" := VObj {[ "isActive" := VBool false;
                                   "currentText" := VStr "" ]} ]};
     stateChanged := [] |}.

End TreeFacts.

(** Sample worlds: a controller that was just constructed in a browser
    with the speech API, and one whose engine has started. *)
Definition random0 (n : nat) : string :=
  match n with
  | O => "k3x9q1a"
  | S O => "p07zm4c"
  | _ => "w5t2h8e"
  end.

Definition fresh : World := construct true random0 (Some "en-US") 50 0.

Definition active : World :=
  run [(10, CallStart); (110, TimerFired 0 None); (150, OnStart 0)] fresh.

Definition hello : ResultEvent :=
  {| resultIndex := 0;
     results := [ {| transcript := "hello world"; isFinal := true |};
                  {| transcript := " and"; isFinal := false |} ] |}.

(** A run in which a replaced engine instance still delivers a result:
    the watchdog restarts the session, the restart creates instance 1
    while the callbacks of instance 0 stay in place, [destroy()] releases
    instance 1, and instance 0 then returns the final result for the audio
    it had captured when it was stopped. *)
Definition hi : ResultEvent :=
  {| resultIndex := 0;
     results := [ {| transcript := "hi"; isFinal := false |} ] |}.

Definition thanks : ResultEvent :=
  {| resultIndex := 0;
     results := [ {| transcript := "thank you"; isFinal := true |} ] |}.

Definition late_result_run : list (Z * Input) :=
  [ (10, CallStart); (110, TimerFired 0 None); (150, OnStart 0);
    (6150, WatchdogTick); (6250, TimerFired 4 None);
    (6260, CallDestroy); (6300, OnResult 0 thanks) ].


(** The safe restarts in a trace: each [safeRestart()] schedules its
    resume callback once, and nothing else schedules one. *)
Fixpoint safeRestarts (tr : list Effect) : nat :=
  match tr with
  | [] => 0
  | SetTimeout (SafeRestartResume _) _ :: tr => S (safeRestarts tr)
  | _ :: tr => safeRestarts tr
  end.

Definition is_OnStart (i : Input) : bool :=
  match i with OnStart _ => true | _ => false end.

(** The history entries created for a text in a trace. *)
Fixpoint entriesFor (text : string) (tr : list Effect) : nat :=
  match tr with
  | [] => 0
  | Emit_textHistoryChanged e :: tr =>
      ((if String.eqb (originalText e) text then 1 else 0)
       + entriesFor text tr)%nat
  | _ :: tr => entriesFor text tr
  end.

(** The pending expiry callbacks of the dedup window: text and due time. *)
Fixpoint expiries (ts : list Timer) : list (string * Z) :=
  match ts with
  | [] => []
  | t :: ts =>
      match action t with
      | ExpireProcessedText text => (text, due t) :: expiries ts
      | _ => expiries ts
      end
  end.

(** The dedup window and its timers agree: a text has at most one pending
    expiry, and only while it is in [processedTexts]. *)
Definition dedup_inv (w : World) : Prop :=
  NoDup (map fst (expiries (timers w)))
  /\ forall text, text ∈ map fst (expiries (timers w)) ->
                  text ∈ processedTexts (manager w).

(** A text stays in the window until [deadline]. *)
Definition in_window (text : string) (deadline : Z) (w : World) : Prop :=
  text ∈ processedTexts (manager w)
  /\ forall p, p ∈ expiries (timers w) -> fst p = text -> deadline <= snd p.

(** What a callback that does not touch the dedup window leaves alone. *)
Definition quiet (w w' : World) : Prop :=
  processedTexts (manager w') = processedTexts (manager w)
  /\ expiries (timers w') = expiries (timers w)
  /\ forall text, entriesFor text (trace w') = entriesFor text (trace w).

(** The timeouts that lead to an engine start. *)
Definition is_restart (a : TimerAction) : bool :=
  match a with
  | AutoContinue | EngineStart | SafeRestartResume _ | LanguageRestart => true
  | ExpireProcessedText _ | ClearInterimText => false
  end.

Definition restartPending (w : World) : bool :=
  existsb (fun t => is_restart (action t)) (timers w).

(** The calls of [recognition.start()] in a trace. *)
Fixpoint engineStarts (tr : list Effect) : nat :=
  match tr with
  | [] => 0
  | Engine_start _ _ :: tr => S (engineStarts tr)
  | _ :: tr => engineStarts tr
  end.


Definition hello_world : ResultEvent :=
  {| resultIndex := 0;
     results := [ {| transcript := "hello world"; isFinal := true |} ] |}.

(** The ticks of the watchdog of [active] while the engine stays silent;
    the first one later than [deadTime] after the start is the sixth. *)
Definition silent_ticks : list (Z * Input) :=
  [ (1150, WatchdogTick); (2150, WatchdogTick); (3150, WatchdogTick);
    (4150, WatchdogTick); (5150, WatchdogTick) ].

(** ** Proof automation *)

(** Case analysis on the innermost [match] or [if] of the goal. *)
Ltac break_match :=
  match goal with
  | |- context [match ?x with _ => _ end] =>
      lazymatch x with
      | context [match _ with _ => _ end] => fail
      | _ => destruct x eqn:?
      end
  end.

(** The operations of the controller, callers before callees. *)
Ltac unfold_controller :=
  unfold step, runTimer, safeRestartResume, changeLanguage, destroy,
    handleError, watchdogTick, safeRestart, onstart, onend, handleResult,
    handleResult_from, processFinalResult, engineStart, start, stop,
    performFullReset, initializeRecognition, clearInterimTextReliably,
    clearInterimAfter, resetStateManagerState, forceStopRecognition,
    resetInternalState, startWatchdog, stopWatchdog, addTextHistory,
    setError, updateRecognitionState, updateConfig in *.

(** Unfold an operation, compute the fields of the resulting world and
    split on every condition the source tests. *)
Ltac crush_controller :=
  unfold_controller;
  repeat first [ progress (cbn -[trimText includes criticalErrors
                                 languageOrDefault transcripts] in *)
               | break_match ];
  try (split; congruence || reflexivity || assumption);
  try congruence.

(** The same, for an operation claimed to be [quiet]. *)
Ltac crush_quiet :=
  unfold quiet; unfold_controller;
  repeat first [ progress (cbn -[trimText includes criticalErrors
                                 languageOrDefault transcripts] in *)
               | break_match ];
  repeat split; intros; reflexivity.

(** ** Further parts of the two classes *)

(** *** Subscribers ([StateManager.on], [off], [emit]) *)

Module Listeners.
Import StateTree.

Section Registry.

(** The payload of the events. *)
Variable Data : Type.

(** A subscriber is a function reference; [throws callback data] tells
    whether the call [callback(data)] ends by throwing.  The subscribers
    considered do not subscribe or unsubscribe while they are called. *)
Variable throws : nat -> Data -> bool.

Record Registry := {
  listeners : gmap string (list nat);  (* this.listeners *)
  calls : list (nat * Data);           (* calls made, oldest first *)
  triggered : list (string * Data)     (* trigger(`state:${eventName}`, data) *)
}.

(** The subscribers of an event, in registration order. *)
Definition subscribers (eventName : string) (r : Registry) : list nat :=
  match listeners r !! eventName with
  | Some callbacks => callbacks
  | None => []
  end.

(** [on(eventName, callback)]. *)
Definition on (eventName : string) (callback : nat) (r : Registry)
    : Registry :=
  {| listeners :=
       <[eventName := subscribers eventName r ++ [callback]]> (listeners r);
     calls := calls r;
     triggered := triggered r |}.

(** [callbacks.indexOf(callback)] then [splice(index, 1)]: the earliest
    registration goes, if there is one. *)
Fixpoint removeFirst (callback : nat) (callbacks : list nat) : list nat :=
  match callbacks with
  | [] => []
  | c :: rest =>
      if Nat.eqb c callback then rest else c :: removeFirst callback rest
  end.

(** [off(eventName, callback)]. *)
Definition off (eventName : string) (callback : nat) (r : Registry)
    : Registry :=
  match listeners r !! eventName with
  | Some callbacks =>
      {| listeners :=
           <[eventName := removeFirst callback callbacks]> (listeners r);
         calls := calls r;
         triggered := triggered r |}
  | None => r
  end.

(** [callback(data)]. *)
Definition call (data : Data) (callback : nat) (log : list (nat * Data))
    : Completion (list (nat * Data)) * list (nat * Data) :=
  let log := log ++ [(callback, data)] in
  if throws callback data then (Throws, log) else (Normal log, log).

(** [try { callback(data); } catch (error) { }]. *)
Definition tryCall (data : Data) (callback : nat) (log : list (nat * Data))
    : Completion (list (nat * Data)) :=
  match call data callback log with
  | (Normal log, _) => Normal log
  | (Throws, log) => Normal log
  end.

(** [callbacks.forEach(body)]: an exception of the body ends the loop. *)
Fixpoint forEach (body : nat -> list (nat * Data)
                         -> Completion (list (nat * Data)))
    (callbacks : list nat) (log : list (nat * Data))
    : Completion (list (nat * Data)) :=
  match callbacks with
  | [] => Normal log
  | callback :: rest =>
      match body callback log with
      | Normal log => forEach body rest log
      | Throws => Throws
      end
  end.

(** [emit(eventName, data)]. *)
Definition emit (eventName : string) (data : Data) (r : Registry)
    : Completion Registry :=
  match forEach (tryCall data) (subscribers eventName r) (calls r) with
  | Normal log =>
      Normal {| listeners := listeners r;
                calls := log;
                triggered := triggered r ++ [(eventName, data)] |}
  | Throws => Throws
  end.

End Registry.

Arguments listeners {Data} _.
Arguments calls {Data} _.
Arguments triggered {Data} _.
Arguments subscribers {Data} _ _.
Arguments on {Data} _ _ _.
Arguments off {Data} _ _ _.
Arguments call {Data} _ _ _ _.
Arguments tryCall {Data} _ _ _ _.
Arguments forEach {Data} _ _ _.
Arguments emit {Data} _ _ _ _.

End Listeners.

(** *** Paths of the state tree *)

Module PathFacts.


End PathFacts.

(** *** White space around a text *)

Fixpoint all_space (s : string) : bool :=
  match s with
  | EmptyString => true
  | String c rest => is_space c && all_space rest
  end.

Definition starts_with_space (s : string) : bool :=
  match s with
  | EmptyString => false
  | String c _ => is_space c
  end.

Definition ends_with_space (s : string) : bool :=
  starts_with_space (string_rev s).

(** *** The status report and the restart test of the controller *)

(** The object [getStatus()] returns. *)
Record Status := {
  status_isRecognizing : bool;
  status_sessionId : option Id;
  status_errorCount : Z;
  status_language : option string;     (* this.recognition?.lang *)
  status_lastResultTime : Z;
  status_hasWatchdog : bool            (* !!this.watchdogTimer *)
}.

(** [getStatus()]; the handle of a live interval is truthy. *)
Definition getStatus (w : World) : Status :=
  {| status_isRecognizing := isRecognizing (manager w);
     status_sessionId := sessionId (manager w);
     status_errorCount := errorCount (manager w);
     status_language :=
       match recognition (manager w) with
       | Some e => lang e
       | None => None
       end;
     status_lastResultTime := lastResultTime (manager w);
     status_hasWatchdog :=
       match watchdogTimer (manager w) with
       | Some _ => true
       | None => false
       end |}.



(** *** Observations on the worlds the controller reaches *)

(** The flags of the controller and what it has published agree. *)
Definition coherent (w : World) : Prop :=
  status_hasWatchdog (getStatus w) = isRecognizing (manager w)
  /\ isListening (recognitionState (store w)) = isRecognizing (manager w)
  /\ (isRecognizing (manager w) = true ->
      isActive (recognitionState (store w)) = true)
  /\ rec_sessionId (recognitionState (store w)) = sessionId (manager w)
  /\ rec_lastResultTime (recognitionState (store w)) = 0.

(** The calls on an engine in a trace. *)
Fixpoint engineCalls (tr : list Effect) : nat :=
  match tr with
  | [] => 0
  | (Engine_new _ | Engine_stop _ | Engine_start _ _) :: tr =>
      S (engineCalls tr)
  | _ :: tr => engineCalls tr
  end.

(** The handle the controller holds is an instance it created, with its
    callbacks in place. *)
Definition handle_attached (w : World) : Prop :=
  (forall e, recognition (manager w) = Some e -> instance e ∈ handlers w)
  /\ (forall inst, inst ∈ handlers w -> (inst < constructed w)%nat).

(** Nothing of an engine exists. *)
Definition engineless (w : World) : Prop :=
  speechSupported w = false
  /\ recognition (manager w) = None
  /\ handlers w = ∅
  /\ isRecognizing (manager w) = false
  /\ isActive (recognitionState (store w)) = false
  /\ restartPending w = false
  /\ engineCalls (trace w) = 0%nat.

(** The handles of the pending timeouts decrease from the newest to the
    oldest, below the next handle. *)
Fixpoint handles_below (bound : nat) (hs : list nat) : Prop :=
  match hs with
  | [] => True
  | h :: rest => (h < bound)%nat /\ handles_below h rest
  end.

Definition timers_ordered (w : World) : Prop :=
  handles_below (nextHandle w) (map handle (timers w)).

(** Every text of the dedup window has its expiry pending. *)
Definition window_complete (w : World) : Prop :=
  forall text, text ∈ processedTexts (manager w) ->
               text ∈ map fst (expiries (timers w)).

(** The texts of the dedup window are trimmed and not empty. *)
Definition window_trimmed (w : World) : Prop :=
  forall text, text ∈ processedTexts (manager w) ->
               truthy text = true /\ trimText text = text.

Definition window_inv (w : World) : Prop :=
  timers_ordered w /\ window_complete w /\ window_trimmed w.

(** A history entry as [processFinalResult] makes them. *)
Definition well_formed_entry (e : TextHistoryEntry) : Prop :=
  truthy (originalText e) = true
  /\ trimText (originalText e) = originalText e
  /\ id_prefix (entry_id e) = "text".

(** The entry was announced when it was made. *)
Definition recorded (w : World) (e : TextHistoryEntry) : Prop :=
  well_formed_entry e
  /\ Emit_textHistoryChanged e ∈ trace w
  /\ Trigger_textRecognized (originalText e) ∈ trace w.

(** [w'] has one entry more than [w], made at [now]. *)
Definition appended (now : Z) (w w' : World) : Prop :=
  exists text,
    truthy (trimText text) = true
    /\ let e := {| entry_id := {| id_prefix := "text"; id_time := now;
                                  id_random := rng w (draws w) |};
                   timestamp := now; originalText := trimText text;
                   language := cfg_language (store w) |} in
       textHistory (store w')
       = unshift_capped (cfg_maxTextLines (store w)) e
                        (textHistory (store w))
       /\ Emit_textHistoryChanged e ∈ trace w'
       /\ Trigger_textRecognized (trimText text) ∈ trace w'.

(** No entry is older than the one after it. *)
Fixpoint newest_first (history : list TextHistoryEntry) : Prop :=
  match history with
  | e1 :: rest =>
      match rest with
      | e2 :: _ => timestamp e2 <= timestamp e1
      | [] => True
      end /\ newest_first rest
  | [] => True
  end.

(** The clock does not go back between the inputs. *)
Fixpoint chronological (clock : Z) (inputs : list (Z * Input)) : Prop :=
  match inputs with
  | [] => True
  | (now, _) :: rest => clock <= now /\ chronological now rest
  end.

(** *** Fields of a merge *)

Definition sameField (u u' : RecognitionUpdate) : bool :=
  match u, u' with
  | UIsActive _, UIsActive _ | UIsListening _, UIsListening _
  | USessionId _, USessionId _ | UCurrentText _, UCurrentText _
  | UInterimText _, UInterimText _ | UFinalText _, UFinalText _
  | UErrorCount _, UErrorCount _
  | URecognitionInstance _, URecognitionInstance _ => true
  | _, _ => false
  end.

(** The field a merge property names, with the value the section holds. *)
Definition readField (probe : RecognitionUpdate) (r : RecognitionState)
    : RecognitionUpdate :=
  match probe with
  | UIsActive _ => UIsActive (isActive r)
  | UIsListening _ => UIsListening (isListening r)
  | USessionId _ => USessionId (rec_sessionId r)
  | UCurrentText _ => UCurrentText (currentText r)
  | UInterimText _ => UInterimText (interimText r)
  | UFinalText _ => UFinalText (finalText r)
  | UErrorCount _ => UErrorCount (rec_errorCount r)
  | URecognitionInstance _ => URecognitionInstance (recognitionInstance r)
  end.

(** The last property of the merged object that names the field. *)
Definition lastWrite (probe : RecognitionUpdate)
    (updates : list RecognitionUpdate) : option RecognitionUpdate :=
  List.find (sameField probe) (rev updates).
(** * Properties *)

(** ** The state tree *)

Module TreeProps.
Import StateTree TreeFacts.

Lemma split_nonempty sep s : split sep s <> [].
Proof.
  destruct s as [|c s]; simpl; [discriminate|].
  destruct (Ascii.eqb c sep); [discriminate|].
  destruct (split sep s); discriminate.
Qed.

Lemma assignPath_cons k k' keys value current :
  assignPath (k :: k' :: keys) value current
  = match current !! k with
    | Some (VObj child) =>
        below k current (assignPath (k' :: keys) value child)
    | Some _ => Within Throws
    | None =>
        if inherited k then Beyond
        else below k current (assignPath (k' :: keys) value ∅)
    end.
Proof. reflexivity. Qed.


Lemma plain_cons k keys :
  plain (k :: keys) = true -> inherited k = false /\ plain keys = true.
Proof.
  unfold plain. simpl. intros H. apply andb_true_iff in H as [Hk Hkeys].
  apply negb_true_iff in Hk. auto.
Qed.

(** On an object that was just created a walk along plain segments
    assigns the leaf. *)
Lemma assignPath_fresh keys value :
  keys <> [] -> plain keys = true ->
  exists current', assignPath keys value ∅
                   = Within (Normal (current', VUndefined)).
Proof.
  induction keys as [|k keys IH]; [congruence|]. intros _ Hplain.
  apply plain_cons in Hplain as [Hk Hplain].
  destruct keys as [|k' keys].
  - simpl. unfold prop. rewrite lookup_empty, Hk. eauto.
  - rewrite assignPath_cons, lookup_empty, Hk.
    destruct IH as [child' Hr]; [discriminate|exact Hplain|].
    rewrite Hr. simpl. eauto.
Qed.







End TreeProps.

(** ** The store operations *)

Lemma unshift_capped_spec cap newEntry history :
  let appended := newEntry :: history in
  let kept := unshift_capped cap newEntry history in
  head kept = Some newEntry
  /\ (exists oldest, appended = kept ++ oldest)
  /\ (0 < cap -> cap < Z.of_nat (length appended) ->
        Z.of_nat (length kept) = cap)
  /\ (Z.of_nat (length appended) <= cap -> kept = appended)
  /\ (cap = 0 -> kept = appended).
Proof.
  intros appended kept. subst kept. unfold unshift_capped.
  fold appended.
  destruct (0 <? cap) eqn:Hpos; cbn [andb].
  - apply Z.ltb_lt in Hpos.
    destruct (cap <? Z.of_nat (length appended)) eqn:Hover.
    + apply Z.ltb_lt in Hover.
      split; [|split; [|split; [|split]]].
      * subst appended. destruct (Z.to_nat cap) eqn:Hn; [lia|reflexivity].
      * exists (drop (Z.to_nat cap) appended). symmetry. apply take_drop.
      * intros _ _. rewrite length_take. lia.
      * intros Hle. lia.
      * intros H0. lia.
    + apply Z.ltb_ge in Hover.
      split; [|split; [|split; [|split]]]; try reflexivity.
      * exists []. rewrite app_nil_r. reflexivity.
      * intros _ Hc. lia.
  - apply Z.ltb_ge in Hpos.
    split; [|split; [|split; [|split]]]; try reflexivity.
    + exists []. rewrite app_nil_r. reflexivity.
    + intros Hp. lia.
Qed.

(** C9: [addTextHistory] puts the new entry first; when the cap is
    positive and exceeded it keeps the newest [cap] entries, otherwise
    (in particular for a cap of 0) it keeps them all; what is dropped is
    the oldest end; [textHistoryChanged] is emitted with the new entry on
    every call. *)
Theorem addTextHistory_spec text language now w :
  let w' := addTextHistory text language now w in
  let newEntry := {| entry_id := fst (generateId "text" now w);
                     timestamp := now; originalText := text;
                     language := language |} in
  let cap := cfg_maxTextLines (store w) in
  let appended := newEntry :: textHistory (store w) in
  head (textHistory (store w')) = Some newEntry
  /\ (exists oldest, appended = textHistory (store w') ++ oldest)
  /\ (0 < cap -> cap < Z.of_nat (length appended) ->
        Z.of_nat (length (textHistory (store w'))) = cap)
  /\ (Z.of_nat (length appended) <= cap -> textHistory (store w') = appended)
  /\ (cap = 0 -> textHistory (store w') = appended)
  /\ trace w' = Emit_textHistoryChanged newEntry :: trace w.
Proof.
  intros w' newEntry cap appended.
  pose proof (unshift_capped_spec cap newEntry (textHistory (store w)))
    as (H1 & H2 & H3 & H4 & H5).
  repeat split; assumption || reflexivity.
Qed.

(** ** Results *)

Lemma processFinalResult_lastResultTime text now w :
  lastResultTime (manager (processFinalResult text now w))
  = lastResultTime (manager w).
Proof.
  unfold processFinalResult.
  destruct (truthy (trimText text)); simpl; [|reflexivity].
  destruct (bool_decide _); reflexivity.
Qed.

(** Within one callback the fence cannot trip: nothing runs between the
    capture and the comparison. *)
Lemma handleResult_passes_fence event now w :
  handleResult event now w
  = let w := with_manager (set_lastResultTime now) w in
    let w :=
      if truthy (fst (transcripts event)) then
        log (Trigger_interimTextRecognized (fst (transcripts event)))
            (updateRecognitionState
               [UInterimText (fst (transcripts event));
                UCurrentText (snd (transcripts event)
                              +:+ fst (transcripts event))] w)
      else w in
    if truthy (snd (transcripts event))
    then processFinalResult (snd (transcripts event)) now w
    else w.
Proof.
  unfold handleResult, handleResult_from.
  destruct (transcripts event) as [i f]. simpl.
  rewrite bool_decide_eq_true_2; reflexivity.
Qed.

(** C1: when the session identifier captured at the start of the
    callback differs from the controller's at the comparison, the
    callback leaves [currentText], [interimText], [finalText] and the
    text history as they were (the whole store, in fact), emits no event
    and schedules nothing. *)
Theorem handleResult_fence currentSessionId event now w :
  currentSessionId <> sessionId (manager w) ->
  let w' := handleResult_from currentSessionId event now w in
  currentText (recognitionState (store w'))
  = currentText (recognitionState (store w))
  /\ interimText (recognitionState (store w'))
     = interimText (recognitionState (store w))
  /\ finalText (recognitionState (store w'))
     = finalText (recognitionState (store w))
  /\ textHistory (store w') = textHistory (store w)
  /\ store w' = store w
  /\ trace w' = trace w
  /\ timers w' = timers w
  /\ processedTexts (manager w') = processedTexts (manager w).
Proof.
  intros Hstale. unfold handleResult_from.
  destruct (transcripts event) as [i f]. simpl.
  rewrite bool_decide_eq_false_2 by exact Hstale. simpl.
  repeat split; reflexivity.
Qed.

Lemma handleResult_fence_witness :
  let stale := Some {| id_prefix := "session"; id_time := 3;
                       id_random := "old" |} in
  stale <> sessionId (manager active)
  /\ trace (handleResult_from stale hello 200 active) = trace active.
Proof.
  split; [vm_compute; discriminate|].
  apply (handleResult_fence _ hello 200 active). vm_compute. discriminate.
Defined.

(** C10: the callback stores the time of the result before it compares
    the session identifiers, so the internal [lastResultTime] is the
    current time after every callback, also after one whose output is
    discarded as stale, which changes nothing else. *)
Theorem handleResult_refreshes_lastResultTime currentSessionId event now w :
  lastResultTime (manager (handleResult_from currentSessionId event now w))
  = now
  /\ lastResultTime (manager (handleResult event now w)) = now
  /\ (currentSessionId <> sessionId (manager w) ->
        handleResult_from currentSessionId event now w
        = with_manager (set_lastResultTime now) w).
Proof.
  assert (H : forall c,
             lastResultTime (manager (handleResult_from c event now w)) = now).
  { intros c. unfold handleResult_from.
    destruct (transcripts event) as [i f]. simpl.
    destruct (bool_decide _); simpl; [|reflexivity].
    destruct (truthy f); [rewrite processFinalResult_lastResultTime|];
      destruct (truthy i); reflexivity. }
  split; [apply H|]. split; [apply H|].
  intros Hstale. unfold handleResult_from.
  destruct (transcripts event) as [i f]. simpl.
  rewrite bool_decide_eq_false_2 by exact Hstale. reflexivity.
Qed.

(** ** Stopping *)

(** C5, as the code has it: a [stop()] made while the controller holds an
    engine handle returns success and leaves the published state with
    [isActive] and [isListening] false and both texts empty, the
    manual-stop flag set, and both error counters as they were; without a
    handle it returns success and changes nothing. *)
Theorem stop_spec now w :
  (recognition (manager w) <> None ->
     let w' := snd (stop now w) in
     fst (stop now w) = true
     /\ isListening (recognitionState (store w')) = false
     /\ isActive (recognitionState (store w')) = false
     /\ currentText (recognitionState (store w')) = ""
     /\ interimText (recognitionState (store w')) = ""
     /\ errorCount (manager w') = errorCount (manager w)
     /\ rec_errorCount (recognitionState (store w'))
        = rec_errorCount (recognitionState (store w))
     /\ manualStop (manager w') = true
     /\ isRecognizing (manager w') = false
     /\ watchdogTimer (manager w') = None)
  /\ (recognition (manager w) = None -> stop now w = (true, w)).
Proof.
  unfold stop. destruct (recognition (manager w)) as [e|] eqn:He.
  - split; [|discriminate]. intros _.
    unfold performFullReset, forceStopRecognition. simpl. rewrite He.
    simpl. repeat split; reflexivity.
  - split; [congruence|reflexivity].
Qed.

Lemma stop_spec_witness :
  recognition (manager active) <> None
  /\ currentText (recognitionState (store (snd (stop 300 active)))) = "".
Proof.
  split; [vm_compute; discriminate|].
  apply (proj1 (stop_spec 300 active)). vm_compute. discriminate.
Defined.

(** C5 as stated fails after [destroy()]: the handle is gone, a result of
    the instance the watchdog had replaced publishes its text, and
    [stop()] returns without clearing it. *)
Lemma stop_without_handle :
  let w := run late_result_run fresh in
  recognition (manager w) = None
  /\ currentText (recognitionState (store w)) = "thank you"
  /\ currentText (recognitionState (store (snd (stop 6400 w))))
     = "thank you".
Proof. vm_compute. repeat split; reflexivity. Qed.

(** ** Starting *)

(** What the callback scheduled by [start()] does once it fires. *)
Lemma engineStart_spec startThrows now w e :
  recognition (manager w) = Some e ->
  (isRecognizing (manager w) = true -> engineStart startThrows now w = w)
  /\ (isRecognizing (manager w) = false ->
        let w' := engineStart startThrows now w in
        option_map lang (recognition (manager w'))
        = Some (languageOrDefault w)
        /\ exists after,
             trace w'
             = after ++ Engine_start (instance e) (languageOrDefault w)
                        :: trace w).
Proof.
  intros He. unfold engineStart. split; intros Hrec; rewrite Hrec, ?He.
  - reflexivity.
  - destruct startThrows as [msg|]; simpl.
    + destruct (includes "already started" msg); simpl.
      * split; [reflexivity|]. exists []. reflexivity.
      * split; [reflexivity|]. eexists [_]. reflexivity.
    + split; [reflexivity|]. exists []. reflexivity.
Qed.




(** ** Changing the language *)

(** C7, as the code has it, for a controller that holds an engine handle:
    [changeLanguage(lang)] returns success and sets the handle's language
    to [lang]; when the controller was recognizing it stops first (the
    manual-stop flag is set, the published state is inactive) and
    schedules [start()] after [restartDelay]; when it was idle nothing
    else changes.  The engine start that follows sets the handle's
    language again, to the store's [config.language] (['en-US'] when
    empty or absent), so it runs with [lang] when the store holds [lang],
    as it does when the user interface has written it there first. *)
Theorem changeLanguage_spec language now w e :
  recognition (manager w) = Some e ->
  let w' := snd (changeLanguage language now w) in
  let delay := restartDelay (config (manager w)) in
  fst (changeLanguage language now w) = true
  /\ recognition (manager w') = Some (set_lang (Some language) e)
  /\ (isRecognizing (manager w) = true ->
        isRecognizing (manager w') = false
        /\ manualStop (manager w') = true
        /\ isActive (recognitionState (store w')) = false
        /\ isListening (recognitionState (store w')) = false
        /\ In (Engine_stop (instance e)) (trace w')
        /\ head (timers w')
           = Some {| handle := (nextHandle w + 4)%nat; due := now + delay;
                     action := LanguageRestart |}
        /\ forall startThrows now1 w1,
             runTimer LanguageRestart startThrows now1 w1
             = snd (start now1 w1))
  /\ (isRecognizing (manager w) = false ->
        w' = with_manager
               (set_recognition (Some (set_lang (Some language) e))) w)
  /\ (forall startThrows now1 w1 e1,
        recognition (manager w1) = Some e1 ->
        isRecognizing (manager w1) = false ->
        (exists after,
           trace (engineStart startThrows now1 w1)
           = after ++ Engine_start (instance e1) (languageOrDefault w1)
                      :: trace w1)
        /\ (cfg_language (store w1) = Some language ->
            truthy language = true ->
            languageOrDefault w1 = Some language)).
Proof.
  intros He w' delay. subst w' delay.
  assert (Hnext : forall startThrows now1 w1 e1,
            recognition (manager w1) = Some e1 ->
            isRecognizing (manager w1) = false ->
            (exists after,
               trace (engineStart startThrows now1 w1)
               = after ++ Engine_start (instance e1) (languageOrDefault w1)
                          :: trace w1)
            /\ (cfg_language (store w1) = Some language ->
                truthy language = true ->
                languageOrDefault w1 = Some language)).
  { intros startThrows now1 w1 e1 H1 Hidle. split.
    - apply (proj2 (engineStart_spec startThrows now1 w1 e1 H1) Hidle).
    - intros Hl Ht. unfold languageOrDefault. rewrite Hl, Ht. reflexivity. }
  unfold changeLanguage.
  destruct (isRecognizing (manager w)) eqn:Hrec.
  - unfold stop. rewrite He.
    unfold performFullReset, forceStopRecognition.
    repeat (progress (simpl; rewrite ?He)).
    replace (nextHandle w + 4)%nat with (S (S (S (S (nextHandle w))))) by lia.
    split; [reflexivity|]. split; [reflexivity|].
    split; [|split; [discriminate|exact Hnext]].
    intros _. repeat split; try reflexivity. auto 10.
  - repeat (progress (simpl; rewrite ?He)).
    split; [reflexivity|]. split; [reflexivity|].
    split; [discriminate|]. split; [|exact Hnext].
    intros _. unfold with_manager. simpl. rewrite He. reflexivity.
Qed.

Lemma changeLanguage_spec_witness :
  recognition (manager active)
  = Some {| instance := 0; eng_continuous := true;
            eng_interimResults := true; eng_maxAlternatives := 1;
            lang := Some "en-US" |}
  /\ fst (changeLanguage "en-GB" 300 active) = true
  /\ head (timers (snd (changeLanguage "en-GB" 300 active)))
     = Some {| handle := 6; due := 400; action := LanguageRestart |}.
Proof.
  split; [reflexivity|].
  pose proof (changeLanguage_spec "en-GB" 300 active _ eq_refl)
    as (Hok & _ & Hactive & _).
  split; [exact Hok|].
  destruct (Hactive eq_refl) as (_ & _ & _ & _ & _ & Htimer & _).
  exact Htimer.
Defined.

(** C7 as stated fails when the store still holds another language: the
    engine start after [changeLanguage('en-GB')] runs with the store's
    ['en-US'], whether the controller was idle or recognizing. *)
Lemma changeLanguage_then_start :
  head (trace (run [ (10, CallChangeLanguage "en-GB"); (20, CallStart);
                     (120, TimerFired 0 None) ] fresh))
  = Some (Engine_start 0 (Some "en-US"))
  /\ head (trace (run [ (300, CallChangeLanguage "en-GB"); (350, OnEnd 0);
                        (400, TimerFired 6 None);
                        (500, TimerFired 7 None) ] active))
     = Some (Engine_start 0 (Some "en-US")).
Proof. vm_compute. split; reflexivity. Qed.

(** ** Errors *)

(** *** After a stop, with no restart pending *)

Lemma restartPending_removeTimer h w :
  restartPending w = false ->
  restartPending (with_timers (removeTimer h) w) = false.
Proof.
  unfold restartPending. simpl.
  induction (timers w) as [|t ts IH]; simpl; [auto|].
  intros Hno. apply orb_false_iff in Hno as [Ht Hts].
  destruct (Nat.eqb (handle t) h); simpl; [auto|].
  rewrite Ht. auto.
Qed.

Lemma findTimer_not_restart h w t :
  restartPending w = false ->
  findTimer h (timers w) = Some t ->
  is_restart (action t) = false.
Proof.
  unfold restartPending, findTimer.
  induction (timers w) as [|t0 ts IH]; simpl; [discriminate|].
  intros Hno. apply orb_false_iff in Hno as [Ht Hts].
  destruct (Nat.eqb (handle t0) h); [intros [= <-]; exact Ht|auto].
Qed.
















(** ** The watchdog *)

(** While the controller is not recognizing, nothing but the engine's
    start callback makes it recognize again, and no safe restart is
    triggered. *)
Lemma step_idle now i w :
  is_OnStart i = false ->
  isRecognizing (manager w) = false ->
  isRecognizing (manager (step now i w)) = false
  /\ safeRestarts (trace (step now i w)) = safeRestarts (trace w).
Proof.
  intros Hi Hidle. destruct i; try discriminate; clear Hi.
  all: crush_controller.
  all: rewrite Hidle in *; discriminate.
Qed.

Lemma run_idle inputs w :
  Forall (fun ti => is_OnStart (snd ti) = false) inputs ->
  isRecognizing (manager w) = false ->
  isRecognizing (manager (run inputs w)) = false
  /\ safeRestarts (trace (run inputs w)) = safeRestarts (trace w).
Proof.
  intros Hin. revert w.
  induction Hin as [|[now i] inputs Hi _ IH]; intros w Hidle; simpl.
  - auto.
  - destruct (step_idle now i w Hi Hidle) as [Hidle' Hcount].
    destruct (IH _ Hidle') as [Hfinal Hsame].
    split; [exact Hfinal|]. rewrite Hsame. exact Hcount.
Qed.

(** A tick of a controller that is not recognizing, or that has seen a
    result and started its session recently enough, does nothing. *)
Lemma watchdogTick_calm now w :
  isRecognizing (manager w) = false
  \/ (isResultTimeout now (manager w) = false
      /\ isSessionTimeout now (manager w) = false) ->
  watchdogTick now w = w.
Proof.
  unfold watchdogTick. intros [->|[-> ->]]; [reflexivity|].
  destruct (isRecognizing (manager w)); reflexivity.
Qed.

(** C2: a tick of the watchdog of a recognizing controller that finds the
    last result older than [deadTime] or the session older than
    [maxSessionTime] triggers one safe restart.  The restart leaves the
    controller not recognizing and without watchdog, so that no further
    safe restart is triggered by whatever happens before an engine start
    callback; it sets the error counter to 0 and publishes it; and it
    schedules, after [restartDelay], a callback that creates a new engine
    instance, gives it the language that was current at the restart, and
    calls [start()], which schedules the engine start. *)
Theorem watchdog_safeRestart now w :
  isRecognizing (manager w) = true ->
  isResultTimeout now (manager w) = true
  \/ isSessionTimeout now (manager w) = true ->
  let w' := watchdogTick now w in
  let delay := restartDelay (config (manager w)) in
  let currentLanguage := cfg_language (store w) in
  safeRestarts (trace w') = S (safeRestarts (trace w))
  /\ isRecognizing (manager w') = false
  /\ watchdogTimer (manager w') = None
  /\ (forall inputs,
        Forall (fun ti => is_OnStart (snd ti) = false) inputs ->
        safeRestarts (trace (run inputs w')) = safeRestarts (trace w'))
  /\ errorCount (manager w') = 0
  /\ rec_errorCount (recognitionState (store w')) = 0
  /\ head (tail (trace w'))
     = Some (Emit_recognitionStateChanged (recognitionState (store w')))
  /\ head (timers w')
     = Some {| handle := (nextHandle w + 2)%nat; due := now + delay;
               action := SafeRestartResume currentLanguage |}
  /\ (forall startThrows now1 w1,
        speechSupported w1 = true ->
        isRecognizing (manager w1) = false ->
        let w2 := runTimer (SafeRestartResume currentLanguage) startThrows
                           now1 w1 in
        (exists created,
           recognition (manager w2) = Some created
           /\ instance created = constructed w1
           /\ lang created = currentLanguage)
        /\ constructed w1 ∈ handlers w2
        /\ In (Engine_new (constructed w1)) (trace w2)
        /\ head (timers w2)
           = Some {| handle := nextHandle w1;
                     due := now1 + restartDelay (config (manager w1));
                     action := EngineStart |}).
Proof.
  intros Hrec Hout w' delay currentLanguage.
  assert (Hw' : w' = safeRestart now w).
  { subst w'. unfold watchdogTick. rewrite Hrec. simpl.
    destruct Hout as [-> | ->]; [reflexivity|].
    rewrite orb_true_r. reflexivity. }
  assert (Hidle : isRecognizing (manager w') = false).
  { rewrite Hw'. unfold safeRestart, performFullReset, forceStopRecognition.
    simpl. destruct (recognition (manager w)); reflexivity. }
  split; [|split; [exact Hidle|]].
  { rewrite Hw'. unfold safeRestart, performFullReset, forceStopRecognition.
    simpl. destruct (recognition (manager w)); reflexivity. }
  split.
  { rewrite Hw'. unfold safeRestart, performFullReset, forceStopRecognition.
    simpl. destruct (recognition (manager w)); reflexivity. }
  split.
  { intros inputs Hin. apply (run_idle inputs w' Hin Hidle). }
  rewrite Hw'. subst delay currentLanguage.
  replace (nextHandle w + 2)%nat with (S (S (nextHandle w))) by lia.
  unfold safeRestart, performFullReset, forceStopRecognition. simpl.
  split; [destruct (recognition (manager w)); reflexivity|].
  split; [destruct (recognition (manager w)); reflexivity|].
  split; [destruct (recognition (manager w)); reflexivity|].
  split; [destruct (recognition (manager w)); reflexivity|].
  intros startThrows now1 w1 Hsup Hidle1.
  unfold safeRestartResume, initializeRecognition, start. rewrite Hsup.
  simpl. rewrite Hidle1. unfold forceStopRecognition. simpl.
  split; [eexists; split; [reflexivity|split; reflexivity]|].
  split; [apply elem_of_union_l, elem_of_singleton; reflexivity|].
  split; [auto|reflexivity].
Qed.

Lemma watchdog_safeRestart_witness :
  isRecognizing (manager active) = true
  /\ isResultTimeout 6150 (manager active) = true
  /\ safeRestarts (trace (watchdogTick 6150 active)) = 1%nat.
Proof.
  split; [reflexivity|]. split; [reflexivity|].
  exact (proj1 (watchdog_safeRestart 6150 active eq_refl
                  (or_introl eq_refl))).
Defined.

(** ** The dedup window *)

(** Every method call, configuration write, engine callback other than a
    result, and watchdog tick leaves the dedup window alone. *)
Lemma step_quiet now i w :
  match i with
  | OnResult _ _ | TimerFired _ _ => True
  | _ => quiet w (step now i w)
  end.
Proof. destruct i; try exact I; crush_quiet. Qed.

Lemma runTimer_quiet a startThrows now w :
  match a with
  | ExpireProcessedText _ => True
  | _ => quiet w (runTimer a startThrows now w)
  end.
Proof. destruct a; try exact I; crush_quiet. Qed.

(** What [processFinalResult] does: nothing, for a text that trims to
    nothing or is in the window; otherwise the text enters the window
    with an expiry after [duplicateCheckTimeout], and one history entry
    is created for it. *)
Lemma processFinalResult_cases text now w :
  let t := trimText text in
  let w' := processFinalResult text now w in
  ((truthy t = false \/ t ∈ processedTexts (manager w)) /\ w' = w)
  \/ (truthy t = true
      /\ (t ∉ processedTexts (manager w))
      /\ processedTexts (manager w') = {[ t ]} ∪ processedTexts (manager w)
      /\ expiries (timers w')
         = (t, now + duplicateCheckTimeout (config (manager w)))
           :: expiries (timers w)
      /\ (forall x, entriesFor x (trace w')
                    = ((if String.eqb t x then 1 else 0)
                       + entriesFor x (trace w))%nat)
      /\ textHistory (store w')
         = unshift_capped (cfg_maxTextLines (store w))
             {| entry_id := fst (generateId "text" now w); timestamp := now;
                originalText := t; language := cfg_language (store w) |}
             (textHistory (store w))).
Proof.
  intros t w'. subst w'. unfold processFinalResult. fold t.
  destruct (truthy t) eqn:Ht; simpl; [|left; auto].
  destruct (bool_decide (t ∈ processedTexts (manager w))) eqn:Hin.
  - apply bool_decide_eq_true in Hin. left; auto.
  - apply bool_decide_eq_false in Hin. right.
    repeat split; try reflexivity; assumption.
Qed.

(** A result callback is a publication that leaves the window alone,
    followed or not by [processFinalResult]. *)
Lemma handleResult_stages event now w :
  exists w1,
    quiet w w1
    /\ config (manager w1) = config (manager w)
    /\ (handleResult event now w = w1
        \/ exists text, handleResult event now w
                        = processFinalResult text now w1).
Proof.
  rewrite handleResult_passes_fence. cbn zeta.
  set (interim := fst (transcripts event)).
  set (final := snd (transcripts event)).
  set (w0 := with_manager (set_lastResultTime now) w).
  set (w1 := if truthy interim
             then log (Trigger_interimTextRecognized interim)
                      (updateRecognitionState
                         [UInterimText interim;
                          UCurrentText (final +:+ interim)] w0)
             else w0).
  exists w1. split; [|split].
  - subst w1 w0. destruct (truthy interim); repeat split.
  - subst w1 w0. destruct (truthy interim); reflexivity.
  - destruct (truthy final); [right; exists final|left]; reflexivity.
Qed.

Lemma expiries_removeTimer h ts p :
  p ∈ expiries (removeTimer h ts) -> p ∈ expiries ts.
Proof.
  induction ts as [|t ts IH]; simpl; [auto|].
  destruct (Nat.eqb (handle t) h); simpl.
  - intros Hp. specialize (IH Hp).
    destruct (action t); auto. right. exact IH.
  - destruct (action t); auto.
    intros Hp. apply elem_of_cons in Hp as [->|Hp]; [left|right; auto].
Qed.

Lemma findTimer_expiry h ts t text :
  findTimer h ts = Some t ->
  action t = ExpireProcessedText text ->
  (text, due t) ∈ expiries ts.
Proof.
  unfold findTimer.
  induction ts as [|t0 ts IH]; simpl; [discriminate|].
  destruct (Nat.eqb (handle t0) h).
  - intros [= ->] ->. left.
  - intros Hf Ha. specialize (IH Hf Ha).
    destruct (action t0); auto. right. exact IH.
Qed.

Lemma expiries_removeTimer_NoDup h ts :
  NoDup (map fst (expiries ts)) ->
  NoDup (map fst (expiries (removeTimer h ts))).
Proof.
  induction ts as [|t ts IH]; simpl; [auto|].
  assert (Hsub : forall x, x ∈ map fst (expiries (removeTimer h ts)) ->
                           x ∈ map fst (expiries ts)).
  { intros x Hx. apply list_elem_of_fmap in Hx as (p & -> & Hp).
    apply list_elem_of_fmap. exists p. split; [reflexivity|].
    apply (expiries_removeTimer h ts p Hp). }
  destruct (Nat.eqb (handle t) h); simpl.
  - destruct (action t); auto. simpl. intros Hnd.
    apply NoDup_cons in Hnd as [_ Hnd]. auto.
  - destruct (action t); auto. simpl. intros Hnd.
    apply NoDup_cons in Hnd as [Hnot Hnd].
    apply NoDup_cons. split; auto.
Qed.

(** Once its expiry has fired, a text has no pending expiry left. *)
Lemma expiries_removeTimer_fired h ts t text :
  NoDup (map fst (expiries ts)) ->
  findTimer h ts = Some t ->
  action t = ExpireProcessedText text ->
  text ∉ map fst (expiries (removeTimer h ts)).
Proof.
  unfold findTimer.
  induction ts as [|t0 ts IH]; simpl; [discriminate|].
  assert (Hsub : forall x, x ∈ map fst (expiries (removeTimer h ts)) ->
                           x ∈ map fst (expiries ts)).
  { intros x Hx. apply list_elem_of_fmap in Hx as (p & -> & Hp).
    apply list_elem_of_fmap. exists p. split; [reflexivity|].
    apply (expiries_removeTimer h ts p Hp). }
  destruct (Nat.eqb (handle t0) h) eqn:Hh; simpl.
  - intros Hnd [= ->] Ha. rewrite Ha in Hnd. simpl in Hnd.
    apply NoDup_cons in Hnd as [Hnot _]. auto.
  - intros Hnd Hf Ha.
    assert (Hin : text ∈ map fst (expiries ts)).
    { apply list_elem_of_fmap. exists (text, due t). split; [reflexivity|].
      apply (findTimer_expiry h ts t text Hf Ha). }
    destruct (action t0) eqn:Ha0; simpl in *; auto.
    apply NoDup_cons in Hnd as [Hnot Hnd].
    intros Hx. apply elem_of_cons in Hx as [->|Hx]; [contradiction|].
    revert Hx. apply IH; auto.
Qed.

(** *** A text in the window, until its deadline *)

Section Window.

Variable text : string.
Variable deadline : Z.

Lemma quiet_in_window w w' :
  quiet w w' -> in_window text deadline w -> in_window text deadline w'.
Proof.
  intros (Hp & He & _) [Hin Hdue]. unfold in_window.
  rewrite Hp, He. auto.
Qed.

Lemma processFinalResult_in_window other now w :
  in_window text deadline w ->
  let w' := processFinalResult other now w in
  in_window text deadline w'
  /\ entriesFor text (trace w') = entriesFor text (trace w).
Proof.
  intros [Hin Hdue] w'.
  destruct (processFinalResult_cases other now w)
    as [[_ Hsame] | (Ht & Hnew & Hp & He & Hn & _)].
  - subst w'. rewrite Hsame. repeat split; auto.
  - subst w'. unfold in_window. rewrite Hp, He, Hn.
    assert (Hne : trimText other <> text) by congruence.
    split; [split|].
    + set_solver.
    + intros p Hp' Hfst. apply elem_of_cons in Hp' as [->|Hp']; auto.
      simpl in Hfst. contradiction.
    + apply String.eqb_neq in Hne. rewrite Hne. reflexivity.
Qed.

(** Before the deadline a text of the window stays in it, whatever
    happens, and no history entry is created for it. *)
Lemma step_in_window now i w :
  now < deadline ->
  in_window text deadline w ->
  in_window text deadline (step now i w)
  /\ entriesFor text (trace (step now i w)) = entriesFor text (trace w).
Proof.
  intros Hnow Hw.
  pose proof (step_quiet now i w) as Hq.
  destruct i;
    try (split; [exact (quiet_in_window _ _ Hq Hw)
                | apply (proj2 (proj2 Hq))]).
  - (* a result *)
    simpl. destruct (bool_decide (inst ∈ handlers w)); [|auto].
    destruct (handleResult_stages event now w) as (w1 & Hq1 & _ & Hres).
    pose proof (quiet_in_window _ _ Hq1 Hw) as Hw1.
    destruct Hres as [-> | [other ->]].
    + split; [exact Hw1 | apply (proj2 (proj2 Hq1))].
    + destruct (processFinalResult_in_window other now w1 Hw1)
        as [Hw2 Hn].
      split; [exact Hw2|]. rewrite Hn. apply (proj2 (proj2 Hq1)).
  - (* a timeout *)
    simpl. destruct (findTimer h (timers w)) as [t|] eqn:Hf; [|auto].
    destruct (Z.leb_spec (due t) now) as [Hdue|Hlate]; [|auto].
    assert (Hw0 : in_window text deadline (with_timers (removeTimer h) w)).
    { destruct Hw as [Hin Hd]. split; [exact Hin|].
      intros p Hp. apply Hd. apply (expiries_removeTimer h _ p Hp). }
    pose proof (runTimer_quiet (action t) startThrows now
                  (with_timers (removeTimer h) w)) as Hqt.
    destruct (action t) eqn:Ha;
      try (split; [exact (quiet_in_window _ _ Hqt Hw0)
                  | apply (proj2 (proj2 Hqt))]).
    simpl. split; [|reflexivity].
    destruct Hw as [Hin Hd]. split.
    + simpl. assert (text0 <> text).
      { intros ->. pose proof (findTimer_expiry h _ t text Hf Ha) as Hp.
        specialize (Hd _ Hp eq_refl). simpl in Hd. lia. }
      set_solver.
    + intros p Hp. apply Hd. apply (expiries_removeTimer h _ p Hp).
Qed.

Lemma run_in_window inputs w :
  Forall (fun ti => fst ti < deadline) inputs ->
  in_window text deadline w ->
  in_window text deadline (run inputs w)
  /\ entriesFor text (trace (run inputs w)) = entriesFor text (trace w).
Proof.
  intros Hin. revert w.
  induction Hin as [|[now i] inputs Hnow _ IH]; intros w Hw; simpl.
  - auto.
  - destruct (step_in_window now i w Hnow Hw) as [Hw' Hn].
    destruct (IH _ Hw') as [Hfinal Hsame].
    split; [exact Hfinal|]. rewrite Hsame. exact Hn.
Qed.

End Window.

Lemma quiet_dedup_inv w w' : quiet w w' -> dedup_inv w -> dedup_inv w'.
Proof.
  intros (Hp & He & _) [Hnd Hin]. unfold dedup_inv.
  rewrite Hp, He. auto.
Qed.

Lemma processFinalResult_dedup_inv text now w :
  dedup_inv w -> dedup_inv (processFinalResult text now w).
Proof.
  intros [Hnd Hin].
  destruct (processFinalResult_cases text now w)
    as [[_ Hsame] | (Ht & Hnew & Hp & He & _)].
  - rewrite Hsame. split; assumption.
  - unfold dedup_inv. rewrite Hp, He. simpl. split.
    + apply NoDup_cons. split; auto.
    + intros x Hx. apply elem_of_cons in Hx as [->|Hx]; [set_solver|].
      specialize (Hin x Hx). set_solver.
Qed.

(** The window and its timers agree in every world the controller can
    reach. *)
Lemma step_dedup_inv now i w : dedup_inv w -> dedup_inv (step now i w).
Proof.
  intros Hw.
  pose proof (step_quiet now i w) as Hq.
  destruct i; try exact (quiet_dedup_inv _ _ Hq Hw).
  - simpl. destruct (bool_decide (inst ∈ handlers w)); [|auto].
    destruct (handleResult_stages event now w) as (w1 & Hq1 & _ & Hres).
    pose proof (quiet_dedup_inv _ _ Hq1 Hw) as Hw1.
    destruct Hres as [-> | [other ->]]; [exact Hw1|].
    apply processFinalResult_dedup_inv. exact Hw1.
  - simpl. destruct (findTimer h (timers w)) as [t|] eqn:Hf; [|auto].
    destruct (due t <=? now); [|auto].
    destruct Hw as [Hnd Hin].
    assert (Hw0 : dedup_inv (with_timers (removeTimer h) w)).
    { split; simpl.
      - apply expiries_removeTimer_NoDup. exact Hnd.
      - intros x Hx. apply Hin.
        apply list_elem_of_fmap in Hx as (p & -> & Hp).
        apply list_elem_of_fmap. exists p. split; [reflexivity|].
        apply (expiries_removeTimer h _ p Hp). }
    pose proof (runTimer_quiet (action t) startThrows now
                  (with_timers (removeTimer h) w)) as Hqt.
    destruct (action t) eqn:Ha; try exact (quiet_dedup_inv _ _ Hqt Hw0).
    destruct Hw0 as [Hnd0 Hin0]. split; simpl.
    + exact Hnd0.
    + intros x Hx.
      assert (x <> text).
      { intros ->.
        exact (expiries_removeTimer_fired h _ t text Hnd Hf Ha Hx). }
      specialize (Hin0 x Hx). simpl in Hin0. set_solver.
Qed.

Lemma construct_dedup_inv supported random language maxTextLines now :
  dedup_inv (construct supported random language maxTextLines now).
Proof.
  unfold construct, initializeRecognition. simpl.
  destruct supported; simpl; split; simpl;
    first [apply NoDup_nil_2 | intros x Hx; inversion Hx].
Qed.

Lemma run_dedup_inv inputs w : dedup_inv w -> dedup_inv (run inputs w).
Proof.
  revert w. induction inputs as [|[now i] inputs IH]; intros w Hw; simpl.
  - exact Hw.
  - apply IH. apply step_dedup_inv. exact Hw.
Qed.

(** C3, as the code has it, in every world the controller can reach: a
    finalized text whose trimmed value is not empty and not in the dedup
    window creates one history entry; from then on, whatever happens
    before [duplicateCheckTimeout] has elapsed creates no further entry
    for that trimmed text, and a submission of a text with the same
    trimmed value changes nothing and emits nothing. *)
Theorem dedup_window supported random language maxTextLines born history
    text again now later inputs :
  let w := run history
             (construct supported random language maxTextLines born) in
  let t := trimText text in
  let deadline := now + duplicateCheckTimeout (config (manager w)) in
  truthy t = true ->
  t ∉ processedTexts (manager w) ->
  trimText again = t ->
  Forall (fun ti => fst ti < deadline) inputs ->
  let w1 := processFinalResult text now w in
  let w2 := run inputs w1 in
  entriesFor t (trace w1) = S (entriesFor t (trace w))
  /\ head (textHistory (store w1))
     = Some {| entry_id := fst (generateId "text" now w); timestamp := now;
               originalText := t; language := cfg_language (store w) |}
  /\ entriesFor t (trace w2) = entriesFor t (trace w1)
  /\ processFinalResult again later w2 = w2.
Proof.
  intros w t deadline Ht Hnew Hagain Hbefore w1 w2.
  assert (Hinv : dedup_inv w).
  { apply run_dedup_inv, construct_dedup_inv. }
  destruct (processFinalResult_cases text now w)
    as [[[Hempty|Hdup] _] | (_ & _ & Hp & He & Hn & Hh)].
  { fold t in Hempty. congruence. }
  { contradiction. }
  fold t in Hp, He, Hn, Hh. fold w1 in Hp, He, Hn, Hh.
  assert (Hw1 : in_window t deadline w1).
  { split.
    - rewrite Hp. apply elem_of_union_l, elem_of_singleton. reflexivity.
    - rewrite He. intros p Hin Hfst.
      apply elem_of_cons in Hin as [->|Hin]; [simpl; subst deadline; lia|].
      exfalso. apply Hnew. apply (proj2 Hinv).
      apply list_elem_of_fmap. exists p. split; [congruence|exact Hin]. }
  destruct (run_in_window t deadline inputs w1 Hbefore Hw1) as [Hw2 Hsame].
  fold w2 in Hw2, Hsame.
  split; [rewrite Hn, String.eqb_refl; reflexivity|].
  split.
  { rewrite Hh.
    apply (proj1 (unshift_capped_spec _ _ _)). }
  split; [exact Hsame|].
  destruct (processFinalResult_cases again later w2)
    as [[_ Hsame2] | (_ & Hnot & _)]; [exact Hsame2|].
  rewrite Hagain in Hnot. destruct (Hnot (proj1 Hw2)).
Qed.

Lemma dedup_window_witness :
  let w1 := processFinalResult "hello world" 200
              (run [(10, CallStart); (110, TimerFired 0 None);
                    (150, OnStart 0)]
                   (construct true random0 (Some "en-US") 50 0)) in
  let w2 := run [(300, OnResult 0 hi); (350, OnResult 0 hello)] w1 in
  processFinalResult " hello world " 400 w2 = w2.
Proof.
  refine (proj2 (proj2 (proj2
    (dedup_window true random0 (Some "en-US") 50 0
       [(10, CallStart); (110, TimerFired 0 None); (150, OnStart 0)]
       "hello world" " hello world " 200 400
       [(300, OnResult 0 hi); (350, OnResult 0 hello)] _ _ _ _)))).
  - reflexivity.
  - vm_compute. set_solver.
  - reflexivity.
  - repeat constructor.
Defined.

(** C3 as stated fails for a finalized text that trims to nothing: it is
    dropped both times, and no history entry is created at all. *)
Lemma blank_text_creates_no_entry :
  let w1 := processFinalResult "   " 200 active in
  let w2 := processFinalResult "   " 400 w1 in
  textHistory (store w2) = []
  /\ entriesFor (trimText "   ") (trace w2) = 0%nat.
Proof. vm_compute. split; reflexivity. Qed.

(** ** The scenarios of the specification, run on the model *)

(** Scenario A: the engine starts and never returns a result; the ticks
    up to [deadTime] do nothing, the next one restarts the session, the
    error counter is 0 and the resume callback creates a new instance. *)
Example scenario_silent_engine :
  run silent_ticks active = active
  /\ (let w := run (silent_ticks ++ [(6150, WatchdogTick)]) active in
      safeRestarts (trace w) = 1%nat
      /\ errorCount (manager w) = 0
      /\ option_map instance
           (recognition (manager (step 6250 (TimerFired 4 None) w)))
         = Some 1%nat).
Proof. vm_compute. repeat split; reflexivity. Qed.

(** Scenario B: the same finalized text 200 ms apart gives one history
    entry; once the window has expired it is accepted again. *)
Example scenario_duplicate_result :
  map originalText
      (textHistory
         (store (run [(200, OnResult 0 hello_world);
                      (400, OnResult 0 hello_world)] active)))
  = ["hello world"]
  /\ map originalText
         (textHistory
            (store (run [(200, OnResult 0 hello_world);
                         (1700, TimerFired 2 None);
                         (1800, OnResult 0 hello_world)] active)))
     = ["hello world"; "hello world"].
Proof. vm_compute. split; reflexivity. Qed.

(** Scenario C: [stop()] while recognizing sets the manual-stop flag; the
    end callback then resets, clears the flag and schedules no restart. *)
Example scenario_manual_stop :
  let stopped := step 300 CallStop active in
  let ended := step 320 (OnEnd 0) stopped in
  manualStop (manager stopped) = true
  /\ manualStop (manager ended) = false
  /\ isActive (recognitionState (store ended)) = false
  /\ restartPending ended = false.
Proof. vm_compute. repeat split; reflexivity. Qed.

(** Scenario D: the engine refuses the microphone; the controller stops
    and records the error, and after the end callback and every pending
    timeout the engine has been started only the one time. *)
Example scenario_not_allowed :
  let w := run [ (10, CallStart); (110, TimerFired 0 None);
                 (115, OnError 0 "not-allowed"); (116, OnEnd 0);
                 (125, TimerFired 1 None); (165, TimerFired 2 None);
                 (215, TimerFired 3 None); (315, TimerFired 4 None) ]
               fresh in
  option_map code (lastError (store w)) = Some (Code "NOT_ALLOWED")
  /\ engineStarts (trace w) = 1%nat
  /\ timers w = []
  /\ isActive (recognitionState (store w)) = false.
Proof. vm_compute. repeat split; reflexivity. Qed.

(** The second critical code has no entry in the map of [mapErrorCode]. *)
Example service_not_allowed_code :
  mapErrorCode "service-not-allowed" = "UNKNOWN"
  /\ getErrorMessage "SPEECH_RECOGNITION" "UNKNOWN" = UnknownErrorOccurred.
Proof. split; reflexivity. Qed.

(** Names of members of [Object.prototype] as path segments, error codes
    and message codes: the lookups land on the inherited member. *)
Example inherited_members :
  StateTree.getState "config.constructor.name" TreeFacts.sample = Beyond
  /\ StateTree.getState "config.toString" TreeFacts.sample = Beyond
  /\ StateTree.setState "__proto__.x" (StateTree.VNum 1) TreeFacts.sample
     = Beyond
  /\ StateTree.setState "config.toString.name" (StateTree.VStr "x")
       TreeFacts.sample
     = Beyond
  /\ mapErrorCode "constructor" = Inherited "constructor"
  /\ getErrorMessage "SPEECH_RECOGNITION" "valueOf" = Beyond
  /\ getErrorMessage "SPEECH_RECOGNITION" (Inherited "constructor")
     = UnknownErrorOccurred.
Proof. repeat split; reflexivity. Qed.

(** [trimText] and [split] on small inputs. *)
Example trimText_examples :
  trimText "  hello world  " = "hello world"
  /\ trimText "   " = ""
  /\ split "." "config.language" = ["config"; "language"]
  /\ split "." "" = [""].
Proof. repeat split; reflexivity. Qed.

(** * Further properties *)

(** ** The state tree *)

Module TreeMore.
Import StateTree TreeFacts PathFacts.

Lemma split_append p q :
  split "." (p +:+ "." +:+ q) = split "." p ++ split "." q.
Proof.
  induction p as [|c p IH]; simpl.
  - reflexivity.
  - destruct (Ascii.eqb c "."); [rewrite IH; reflexivity|].
    rewrite IH. pose proof (TreeProps.split_nonempty "." p) as Hne.
    destruct (split "." p); [congruence|reflexivity].
Qed.

Lemma lookupPath_undefined keys v :
  is_object v = false -> keys <> [] -> lookupPath keys v = Within VUndefined.
Proof. destruct keys; [congruence|]. destruct v; simpl; congruence. Qed.

Lemma lookupPath_app a b v :
  b <> [] ->
  lookupPath (a ++ b) v
  = match lookupPath a v with
    | Within v' => lookupPath b v'
    | Beyond => Beyond
    end.
Proof.
  intros Hb. revert v. induction a as [|k a IH]; intros v; simpl;
    [reflexivity|].
  assert (Hu : lookupPath b VUndefined = Within VUndefined)
    by (destruct b; [congruence|reflexivity]).
  destruct v; auto. destruct (props !! k); auto.
  destruct (inherited k); auto.
Qed.

(** X1.  [getState] composes along the dots: the value at [path.sub] is the
    value at [sub] inside the value at [path], and it is [undefined] as
    soon as the value at [path] is not an object (absent, [null], a
    string, a number, a boolean).  Where the lookup of [path] lands on a
    member inherited from [Object.prototype], that of [path.sub] goes
    through the same member. *)
Theorem getState_below p q s :
  truthy p = true ->
  getState (p +:+ "." +:+ q) s
  = match getState p s with
    | Within v => lookupPath (split "." q) v
    | Beyond => Beyond
    end
  /\ (forall v, getState p s = Within v -> is_object v = false ->
      getState (p +:+ "." +:+ q) s = Within VUndefined).
Proof.
  intros Hp.
  assert (Hpq : truthy (p +:+ "." +:+ q) = true)
    by (destruct p; [discriminate|reflexivity]).
  assert (Heq : getState (p +:+ "." +:+ q) s
                = match getState p s with
                  | Within v => lookupPath (split "." q) v
                  | Beyond => Beyond
                  end).
  { unfold getState. rewrite Hpq, Hp, split_append.
    apply lookupPath_app, TreeProps.split_nonempty. }
  split; [exact Heq|].
  intros v Hv Hno. rewrite Heq, Hv.
  apply lookupPath_undefined; [exact Hno|apply TreeProps.split_nonempty].
Qed.

Lemma getState_below_witness :
  getState "config.language.region" sample = Within VUndefined.
Proof.
  exact (proj2 (getState_below "config.language" "region" sample eq_refl)
               (VStr "en-US") eq_refl eq_refl).
Defined.










End TreeMore.
(** ** Subscribers *)

Module ListenersProps.
Import StateTree Listeners.

Section Facts.

Context {Data : Type}.
Variable throws : nat -> Data -> bool.

Lemma forEach_tryCall data callbacks log :
  forEach (tryCall throws data) callbacks log
  = Normal (log ++ map (fun callback => (callback, data)) callbacks).
Proof.
  revert log. induction callbacks as [|c callbacks IH]; intros log; simpl.
  - rewrite app_nil_r. reflexivity.
  - unfold tryCall, call at 1.
    destruct (throws c data); rewrite IH, <- app_assoc; reflexivity.
Qed.

(** X4.  [emit] calls every subscriber of the event, once per registration and
    in registration order, whichever of them throw; it calls no
    subscriber of another event, leaves the registry as it is, triggers
    the document event after the calls, and does not throw. *)
Theorem emit_isolated eventName data (r : Registry Data) :
  emit throws eventName data r
  = Normal {| listeners := listeners r;
              calls := calls r
                       ++ map (fun callback => (callback, data))
                              (subscribers eventName r);
              triggered := triggered r ++ [(eventName, data)] |}.
Proof. unfold emit. rewrite forEach_tryCall. reflexivity. Qed.

End Facts.

Lemma removeFirst_absent callback callbacks :
  callback ∉ callbacks -> removeFirst callback callbacks = callbacks.
Proof.
  induction callbacks as [|c callbacks IH]; simpl; [reflexivity|].
  intros Hnot. apply not_elem_of_cons in Hnot as [Hne Hnot].
  destruct (Nat.eqb_spec c callback); [congruence|].
  rewrite IH by exact Hnot. reflexivity.
Qed.

Lemma removeFirst_present callback callbacks :
  callback ∈ callbacks ->
  exists before after,
    callbacks = before ++ callback :: after
    /\ (callback ∉ before)
    /\ removeFirst callback callbacks = before ++ after.
Proof.
  induction callbacks as [|c callbacks IH]; intros Hin.
  - inversion Hin.
  - simpl. destruct (Nat.eqb_spec c callback) as [->|Hne].
    + exists [], callbacks. repeat split. apply not_elem_of_nil.
    + apply elem_of_cons in Hin as [Heq|Hin]; [congruence|].
      destruct (IH Hin) as (before & after & -> & Hnot & ->).
      exists (c :: before), after. repeat split.
      apply not_elem_of_cons. auto.
Qed.

Lemma removeFirst_app_absent callback callbacks :
  callback ∉ callbacks ->
  removeFirst callback (callbacks ++ [callback]) = callbacks.
Proof.
  induction callbacks as [|c callbacks IH]; simpl.
  - rewrite Nat.eqb_refl. reflexivity.
  - intros Hnot. apply not_elem_of_cons in Hnot as [Hne Hnot].
    destruct (Nat.eqb_spec c callback); [congruence|].
    rewrite IH by exact Hnot. reflexivity.
Qed.

Lemma removeFirst_app_present callback callbacks :
  callback ∈ callbacks ->
  removeFirst callback (callbacks ++ [callback])
  = removeFirst callback callbacks ++ [callback].
Proof.
  induction callbacks as [|c callbacks IH]; intros Hin.
  - inversion Hin.
  - simpl. destruct (Nat.eqb_spec c callback) as [->|Hne]; [reflexivity|].
    apply elem_of_cons in Hin as [Heq|Hin]; [congruence|].
    rewrite IH by exact Hin. reflexivity.
Qed.

(** X5.  [off] removes the earliest registration of the callback for the
    event and keeps the others in order; it changes nothing when the
    callback is not registered for the event, and never touches the
    subscribers of another event. *)
Theorem off_removes_earliest {Data} eventName callback (r : Registry Data) :
  let r' := off eventName callback r in
  (callback ∈ subscribers eventName r ->
     exists before after,
       subscribers eventName r = before ++ callback :: after
       /\ (callback ∉ before)
       /\ subscribers eventName r' = before ++ after)
  /\ (callback ∉ subscribers eventName r ->
        subscribers eventName r' = subscribers eventName r)
  /\ (forall other, other <> eventName ->
        subscribers other r' = subscribers other r)
  /\ calls r' = calls r
  /\ triggered r' = triggered r.
Proof.
  unfold off, subscribers.
  destruct (listeners r !! eventName) as [callbacks|] eqn:He; simpl.
  - rewrite lookup_insert_eq.
    split; [apply removeFirst_present|].
    split; [apply removeFirst_absent|].
    split; [|auto].
    intros other Hne. rewrite lookup_insert_ne by congruence. reflexivity.
  - rewrite He. split; [intros Hin; inversion Hin|]. auto.
Qed.

(** X6.  [on] followed by [off] of the same callback: a callback that was not
    registered for the event leaves the subscribers as they were; one
    that was registered loses its earliest registration and ends up
    last.  Other events are not touched. *)
Theorem on_then_off {Data} eventName callback (r : Registry Data) :
  let r' := off eventName callback (on eventName callback r) in
  (callback ∉ subscribers eventName r ->
     subscribers eventName r' = subscribers eventName r)
  /\ (callback ∈ subscribers eventName r ->
        subscribers eventName r'
        = removeFirst callback (subscribers eventName r) ++ [callback])
  /\ (forall other, other <> eventName ->
        subscribers other r' = subscribers other r).
Proof.
  intros r'. subst r'. unfold off.
  assert (Hl : listeners (on eventName callback r) !! eventName
               = Some (subscribers eventName r ++ [callback])).
  { unfold on. cbn [listeners]. apply lookup_insert_eq. }
  rewrite Hl.
  assert (Hs : forall l other,
             subscribers other
               {| listeners := <[eventName := l]>
                                 (listeners (on eventName callback r));
                  calls := calls (on eventName callback r);
                  triggered := triggered (on eventName callback r) |}
             = if decide (other = eventName) then l
               else subscribers other r).
  { intros l other. unfold subscribers, on. cbn [listeners].
    destruct (decide (other = eventName)) as [->|Hne].
    - rewrite lookup_insert_eq. reflexivity.
    - rewrite !lookup_insert_ne by congruence. reflexivity. }
  rewrite Hs. rewrite decide_True by reflexivity.
  split; [apply removeFirst_app_absent|].
  split; [apply removeFirst_app_present|].
  intros other Hne. rewrite Hs, decide_False by exact Hne. reflexivity.
Qed.

End ListenersProps.

(** ** Trimming *)

Lemma append_cons_string c a b : String c a +:+ b = String c (a +:+ b).
Proof. reflexivity. Qed.

Lemma append_empty_l s : "" +:+ s = s.
Proof. reflexivity. Qed.

Lemma append_empty_r s : s +:+ "" = s.
Proof.
  induction s as [|c s IH]; [reflexivity|].
  rewrite append_cons_string, IH. reflexivity.
Qed.

Lemma append_assoc_string a b c : (a +:+ b) +:+ c = a +:+ (b +:+ c).
Proof.
  induction a as [|x a IH]; [reflexivity|].
  rewrite !append_cons_string, IH. reflexivity.
Qed.

Lemma string_rev_onto_append acc s :
  string_rev_onto acc s = string_rev s +:+ acc.
Proof.
  unfold string_rev. revert acc.
  induction s as [|c s IH]; intros acc; simpl; [reflexivity|].
  rewrite (IH (String c acc)), (IH (String c "")), append_assoc_string.
  reflexivity.
Qed.

Lemma string_rev_append a b :
  string_rev (a +:+ b) = string_rev b +:+ string_rev a.
Proof.
  induction a as [|c a IH].
  - rewrite append_empty_l, append_empty_r. reflexivity.
  - rewrite append_cons_string. unfold string_rev at 1 3. simpl.
    rewrite !string_rev_onto_append, IH, append_assoc_string. reflexivity.
Qed.

Lemma string_rev_involutive s : string_rev (string_rev s) = s.
Proof.
  induction s as [|c s IH]; [reflexivity|].
  unfold string_rev at 2. simpl. rewrite string_rev_onto_append.
  rewrite string_rev_append, IH. reflexivity.
Qed.

Lemma all_space_append a b :
  all_space (a +:+ b) = all_space a && all_space b.
Proof.
  induction a as [|c a IH]; [reflexivity|].
  rewrite append_cons_string. simpl. rewrite IH, andb_assoc. reflexivity.
Qed.

Lemma all_space_rev s : all_space (string_rev s) = all_space s.
Proof.
  induction s as [|c s IH]; [reflexivity|].
  unfold string_rev. simpl. rewrite string_rev_onto_append.
  rewrite all_space_append, IH. simpl.
  rewrite andb_true_r. apply andb_comm.
Qed.

Lemma drop_leading_space_split s :
  exists leading,
    all_space leading = true
    /\ s = leading +:+ drop_leading_space s
    /\ starts_with_space (drop_leading_space s) = false.
Proof.
  induction s as [|c s (leading & Hl & Hs & Hn)]; simpl.
  - exists "". auto.
  - destruct (is_space c) eqn:Hc.
    + exists (String c leading). rewrite append_cons_string. simpl.
      rewrite Hc, Hl, <- Hs. auto.
    + exists "". simpl. rewrite Hc. auto.
Qed.

Lemma drop_leading_space_fixed s :
  starts_with_space s = false -> drop_leading_space s = s.
Proof. destruct s as [|c s]; simpl; [reflexivity|]. intros ->. reflexivity. Qed.

Lemma drop_leading_space_blank s :
  all_space s = true -> drop_leading_space s = "".
Proof.
  induction s as [|c s IH]; simpl; [reflexivity|].
  intros H. apply andb_true_iff in H as [-> H]. auto.
Qed.

Lemma trimText_bare text :
  starts_with_space (trimText text) = false
  /\ ends_with_space (trimText text) = false.
Proof.
  unfold trimText.
  destruct (drop_leading_space_split text) as (l & _ & _ & Hstart).
  set (a := drop_leading_space text) in *.
  destruct (drop_leading_space_split (string_rev a)) as (w & _ & Hrev & Hend).
  set (c := drop_leading_space (string_rev a)) in *.
  assert (Ha : a = string_rev c +:+ string_rev w).
  { rewrite <- (string_rev_involutive a), Hrev. apply string_rev_append. }
  split.
  - destruct (string_rev c) as [|x r] eqn:Hx; [reflexivity|].
    rewrite Ha, append_cons_string in Hstart. exact Hstart.
  - unfold ends_with_space. rewrite string_rev_involutive. exact Hend.
Qed.

Lemma trimText_fixed s :
  starts_with_space s = false -> ends_with_space s = false ->
  trimText s = s.
Proof.
  unfold ends_with_space, trimText. intros Hs He.
  rewrite (drop_leading_space_fixed _ Hs), (drop_leading_space_fixed _ He).
  apply string_rev_involutive.
Qed.

Lemma trimText_idempotent text : trimText (trimText text) = trimText text.
Proof. destruct (trimText_bare text). apply trimText_fixed; assumption. Qed.

(** X7.  [trimText] removes white space at both ends and nothing else: the
    text is white space, the trimmed text, white space; the trimmed text
    neither starts nor ends with white space; trimming again changes
    nothing; and the trimmed text is empty exactly when the text is
    white space only. *)
Theorem trimText_spec text :
  (exists leading trailing,
     all_space leading = true
     /\ all_space trailing = true
     /\ text = leading +:+ trimText text +:+ trailing)
  /\ starts_with_space (trimText text) = false
  /\ ends_with_space (trimText text) = false
  /\ trimText (trimText text) = trimText text
  /\ (trimText text = "" <-> all_space text = true).
Proof.
  destruct (trimText_bare text) as [Hstart Hend].
  assert (Hparts : exists leading trailing,
             all_space leading = true
             /\ all_space trailing = true
             /\ text = leading +:+ trimText text +:+ trailing).
  { unfold trimText.
    destruct (drop_leading_space_split text) as (l & Hl & Htext & _).
    set (a := drop_leading_space text) in *.
    destruct (drop_leading_space_split (string_rev a)) as (w & Hw & Hrev & _).
    set (c := drop_leading_space (string_rev a)) in *.
    exists l, (string_rev w). rewrite all_space_rev.
    split; [exact Hl|]. split; [exact Hw|].
    rewrite Htext at 1. f_equal.
    rewrite <- (string_rev_involutive a), Hrev. apply string_rev_append. }
  split; [exact Hparts|].
  split; [exact Hstart|].
  split; [exact Hend|].
  split; [apply trimText_idempotent|].
  split.
  - intros Hempty. destruct Hparts as (l & t & Hl & Ht & Htext).
    rewrite Htext, Hempty, append_empty_l, all_space_append, Hl, Ht.
    reflexivity.
  - intros Hblank. unfold trimText.
    rewrite (drop_leading_space_blank _ Hblank). reflexivity.
Qed.
(** ** Invariants of the controller *)

Lemma run_invariant (P : World -> Prop) inputs w :
  (forall now i w, P w -> P (step now i w)) -> P w -> P (run inputs w).
Proof.
  intros Hstep. revert w.
  induction inputs as [|[now i] inputs IH]; intros w Hw; simpl; auto.
Qed.

Lemma step_coherent now i w : coherent w -> coherent (step now i w).
Proof.
  unfold coherent, getStatus. intros (Hwd & Hlis & Hact & Hsid & Hlrt).
  destruct i.
  all: crush_controller.
  all: repeat match goal with
         | H : isRecognizing (manager _) = _ |- _ => rewrite H in *
         | H : watchdogTimer (manager _) = _ |- _ => rewrite H in *
         end.
  all: intuition congruence.
Qed.

Lemma construct_coherent supported random language maxTextLines born :
  coherent (construct supported random language maxTextLines born).
Proof. destruct supported; repeat split; discriminate. Qed.

(** X8.  In every world the controller can reach, its flags and what it has
    published agree: the watchdog interval is live exactly when the
    controller is recognizing (so [getStatus()] reports [hasWatchdog] and
    [isRecognizing] alike), the published [isListening] is the internal
    [isRecognizing], a recognizing controller has published [isActive],
    the published [sessionId] is the internal one, and the published
    [lastResultTime] is never written. *)
Theorem controller_coherent supported random language maxTextLines born
    history :
  let w := run history
             (construct supported random language maxTextLines born) in
  status_hasWatchdog (getStatus w) = status_isRecognizing (getStatus w)
  /\ isListening (recognitionState (store w)) = isRecognizing (manager w)
  /\ (isRecognizing (manager w) = true ->
      isActive (recognitionState (store w)) = true)
  /\ rec_sessionId (recognitionState (store w)) = sessionId (manager w)
  /\ rec_lastResultTime (recognitionState (store w)) = 0.
Proof.
  apply (run_invariant coherent); [apply step_coherent|].
  apply construct_coherent.
Qed.

(** ** The engine handle *)

Lemma step_handle_attached now i w :
  handle_attached w -> handle_attached (step now i w).
Proof.
  unfold handle_attached. intros (Hin & Hlt).
  destruct w as [[rec isRec sid wd lrt sst ec pt ms cfg]
                   st ts nh tr sup cons hs rg dr].
  simpl in *.
  destruct i.
  all: crush_controller.
  all: try (destruct rec as [?|]; simpl in *).
  all: split;
    [ intros e' He'; simplify_eq; simpl;
      try match goal with
          | H : forall e, Some ?x = Some e -> _ |- _ =>
              pose proof (H _ eq_refl)
          end;
      first [ solve [eauto] | set_solver ]
    | intros inst' Hi; set_unfold in Hi;
      repeat match goal with
             | H : _ \/ _ |- _ => destruct H
             | H : _ /\ _ |- _ => destruct H
             end;
      subst; try lia;
      match goal with
      | H : forall inst, _ -> (_ < _)%nat, Hi : _ ∈ _ |- _ =>
          pose proof (H _ Hi); lia
      end ].
Qed.

Lemma construct_handle_attached supported random language maxTextLines born :
  handle_attached (construct supported random language maxTextLines born).
Proof.
  unfold handle_attached, construct, initializeRecognition.
  destruct supported; simpl; split.
  - intros e [= <-]. simpl. set_solver.
  - intros inst Hi. set_unfold in Hi. destruct Hi as [->|[]]. lia.
  - discriminate.
  - intros inst Hi. set_solver.
Qed.

(** X9.  In every world the controller can reach, the engine handle it holds
    is an instance it has created whose callback slots are set: a start,
    end, result or error callback of that instance is never ignored. *)
Theorem engine_handle_attached supported random language maxTextLines born
    history e :
  let w := run history
             (construct supported random language maxTextLines born) in
  recognition (manager w) = Some e ->
  instance e ∈ handlers w
  /\ (instance e < constructed w)%nat
  /\ (forall now event error,
        step now (OnStart (instance e)) w = onstart now w
        /\ step now (OnEnd (instance e)) w = onend now w
        /\ step now (OnResult (instance e) event) w
           = handleResult event now w
        /\ step now (OnError (instance e) error) w
           = handleError error now w).
Proof.
  intros w He.
  assert (Hinv : handle_attached w).
  { apply (run_invariant handle_attached); [apply step_handle_attached|].
    apply construct_handle_attached. }
  destruct Hinv as [Hin Hlt]. pose proof (Hin e He) as Hmem.
  split; [exact Hmem|]. split; [apply Hlt; exact Hmem|].
  intros now event error. simpl.
  rewrite bool_decide_eq_true_2 by exact Hmem. auto.
Qed.

Lemma engine_handle_attached_witness :
  (0 < constructed active)%nat.
Proof.
  exact (proj1 (proj2
    (engine_handle_attached true random0 (Some "en-US") 50 0
       [(10, CallStart); (110, TimerFired 0 None); (150, OnStart 0)]
       _ eq_refl))).
Defined.

(** X10.  [destroy()] on a controller that holds an engine handle stops as
    [stop()] does, clears the callback slots of that instance and drops
    the handle: afterwards no callback of the released instance changes
    anything, the other instances keep their callbacks, and [getStatus()]
    reports no language.  Without a handle [destroy()] changes nothing. *)
Theorem destroy_releases now w :
  (forall e, recognition (manager w) = Some e ->
     let w' := destroy now w in
     recognition (manager w') = None
     /\ handlers w' = handlers w ∖ {[ instance e ]}
     /\ (forall now1 event error,
           step now1 (OnStart (instance e)) w' = w'
           /\ step now1 (OnEnd (instance e)) w' = w'
           /\ step now1 (OnResult (instance e) event) w' = w'
           /\ step now1 (OnError (instance e) error) w' = w')
     /\ manager w' = set_recognition None (manager (snd (stop now w)))
     /\ store w' = store (snd (stop now w))
     /\ trace w' = trace (snd (stop now w))
     /\ In (Engine_stop (instance e)) (trace w')
     /\ status_language (getStatus w') = None
     /\ status_isRecognizing (getStatus w') = false
     /\ status_hasWatchdog (getStatus w') = false)
  /\ (recognition (manager w) = None -> destroy now w = w).
Proof.
  split.
  - intros e He w'. subst w'.
    unfold destroy, stop, performFullReset, forceStopRecognition.
    repeat (progress (simpl; rewrite ?He)).
    split; [reflexivity|]. split; [reflexivity|].
    split.
    { intros now1 event error.
      rewrite !bool_decide_eq_false_2 by set_solver. auto. }
    repeat split; auto 20.
  - intros Hnone. unfold destroy, stop. rewrite Hnone. simpl.
    rewrite Hnone. reflexivity.
Qed.

(** X11.  [start()] on a controller without a handle, in a browser with the
    speech API: a new instance is created with the options of the
    configuration and the language of the store, its callbacks are set,
    and the start goes on as with a handle: the new instance is stopped
    and its start is scheduled after [restartDelay]. *)
Theorem start_recreates now w :
  recognition (manager w) = None ->
  speechSupported w = true ->
  isRecognizing (manager w) = false ->
  let w' := snd (start now w) in
  let delay := restartDelay (config (manager w)) in
  fst (start now w) = true
  /\ recognition (manager w')
     = Some {| instance := constructed w;
               eng_continuous := continuous (config (manager w));
               eng_interimResults := interimResults (config (manager w));
               eng_maxAlternatives := maxAlternatives (config (manager w));
               lang := languageOrDefault w |}
  /\ handlers w' = {[ constructed w ]} ∪ handlers w
  /\ constructed w' = S (constructed w)
  /\ timers w' = {| handle := nextHandle w; due := now + delay;
                    action := EngineStart |} :: timers w
  /\ trace w' = SetTimeout EngineStart delay
                :: Engine_stop (constructed w)
                :: Engine_new (constructed w) :: trace w
  /\ store w' = store w.
Proof.
  intros Hnone Hsup Hidle w' delay. subst w' delay.
  unfold start, initializeRecognition, forceStopRecognition.
  rewrite Hnone, Hsup. simpl. rewrite Hidle. simpl.
  repeat split; reflexivity.
Qed.

Lemma start_recreates_witness :
  let released := destroy 20 fresh in
  recognition (manager released) = None
  /\ option_map instance (recognition (manager (snd (start 30 released))))
     = Some 1%nat.
Proof.
  split; [reflexivity|].
  pose proof (start_recreates 30 (destroy 20 fresh) eq_refl eq_refl eq_refl)
    as (_ & Hrec & _).
  rewrite Hrec. reflexivity.
Defined.

(** ** A browser without the speech API *)

(** X12.  [start()] without a handle and without the speech API reports
    failure: it records [NOT_SUPPORTED] twice (once in
    [initializeRecognition], once itself), emits both errors, and leaves
    the controller, the timeouts and the published recognition state as
    they were. *)
Theorem start_unsupported now w :
  recognition (manager w) = None ->
  speechSupported w = false ->
  let w' := snd (start now w) in
  fst (start now w) = false
  /\ manager w' = manager w
  /\ timers w' = timers w
  /\ recognitionState (store w') = recognitionState (store w)
  /\ textHistory (store w') = textHistory (store w)
  /\ (exists first second,
        trace w' = Emit_error second :: Emit_error first :: trace w
        /\ lastError (store w') = Some second
        /\ category first = "SPEECH_RECOGNITION"
        /\ code first = "NOT_SUPPORTED"
        /\ category second = "SPEECH_RECOGNITION"
        /\ code second = "NOT_SUPPORTED"
        /\ message second
           = TableMessage "SPEECH_RECOGNITION" "NOT_SUPPORTED").
Proof.
  intros Hnone Hsup w'. subst w'.
  unfold start, initializeRecognition. rewrite Hnone, Hsup. simpl.
  repeat split; try reflexivity.
  eexists _, _. repeat split; reflexivity.
Qed.

Lemma start_unsupported_witness :
  let w := construct false random0 (Some "en-US") 50 0 in
  recognition (manager w) = None
  /\ fst (start 10 w) = false.
Proof.
  split; [reflexivity|].
  exact (proj1 (start_unsupported 10
                  (construct false random0 (Some "en-US") 50 0)
                  eq_refl eq_refl)).
Defined.

Lemma step_engineless now i w : engineless w -> engineless (step now i w).
Proof.
  intros (Hsup & Hrec & Hhs & Hidle & Hact & Hno & Hcalls).
  destruct i.
  13: { (* a timeout *)
    simpl. destruct (findTimer h (timers w)) as [t|] eqn:Hf;
      [|repeat split; assumption].
    destruct (due t <=? now); [|repeat split; assumption].
    pose proof (findTimer_not_restart h w t Hno Hf) as Hnr.
    pose proof (restartPending_removeTimer h w Hno) as Hno'.
    destruct (action t); try discriminate; simpl;
      repeat split; assumption. }
  all: unfold engineless in *; unfold restartPending in *.
  all: destruct w as [[rec isRec sid wd lrt sst ec pt ms cfg]
                        st ts nh tr sup cons hs rg dr].
  all: simpl in *; subst.
  all: try rewrite bool_decide_eq_false_2 by set_solver.
  all: crush_controller.
  all: repeat split; try assumption; try reflexivity.
Qed.

Lemma construct_engineless random language maxTextLines born :
  engineless (construct false random language maxTextLines born).
Proof. repeat split. Qed.

(** X13.  In a browser without the speech API the controller stays without an
    engine whatever is called and whatever fires: it holds no handle, is
    never recognizing, never publishes an active state, never has a
    restart pending and never calls an engine. *)
Theorem unsupported_stays_idle random language maxTextLines born history :
  let w := run history (construct false random language maxTextLines born) in
  recognition (manager w) = None
  /\ isRecognizing (manager w) = false
  /\ isActive (recognitionState (store w)) = false
  /\ restartPending w = false
  /\ engineCalls (trace w) = 0%nat.
Proof.
  intros w.
  assert (Hinv : engineless w).
  { apply (run_invariant engineless); [apply step_engineless|].
    apply construct_engineless. }
  destruct Hinv as (_ & Hrec & _ & Hidle & Hact & Hno & Hcalls). auto.
Qed.

(** ** Stopping, again *)

(** X14.  A second [stop()] changes neither the controller nor the store: only
    the engine is told to stop again and the interim display is cleared
    again. *)
Theorem stop_idempotent now1 now2 w :
  let once := snd (stop now1 w) in
  let twice := snd (stop now2 once) in
  manager twice = manager once
  /\ store twice = store once
  /\ engineStarts (trace twice) = engineStarts (trace once)
  /\ restartPending twice = restartPending once.
Proof.
  unfold stop, performFullReset, forceStopRecognition, restartPending.
  destruct (recognition (manager w)) as [e|] eqn:He;
    repeat (progress (simpl; rewrite ?He)); repeat split; reflexivity.
Qed.

(** X15.  [stop()] cancels nothing that is scheduled: every pending timeout
    stays pending, and an auto-continue or language restart that fires
    after the stop calls [start()], which schedules the engine start. *)
Theorem stop_keeps_pending_restart now w e :
  recognition (manager w) = Some e ->
  let stopped := snd (stop now w) in
  (forall t, In t (timers w) -> In t (timers stopped))
  /\ (forall startThrows now1,
        let resumed := runTimer AutoContinue startThrows now1 stopped in
        head (timers resumed)
        = Some {| handle := (nextHandle w + 4)%nat;
                  due := now1 + restartDelay (config (manager w));
                  action := EngineStart |}
        /\ restartPending resumed = true
        /\ runTimer LanguageRestart startThrows now1 stopped = resumed).
Proof.
  intros He stopped. subst stopped.
  unfold stop, performFullReset, forceStopRecognition.
  repeat (progress (simpl; rewrite ?He)).
  split; [intros t Ht; simpl; auto 10|].
  intros startThrows now1.
  unfold start, forceStopRecognition, restartPending.
  repeat (progress (simpl; rewrite ?He)).
  replace (nextHandle w + 4)%nat with (S (S (S (S (nextHandle w))))) by lia.
  repeat split; reflexivity.
Qed.

Lemma stop_keeps_pending_restart_witness :
  let ended := step 200 (OnEnd 0) active in
  recognition (manager ended)
  = Some {| instance := 0; eng_continuous := true;
            eng_interimResults := true; eng_maxAlternatives := 1;
            lang := Some "en-US" |}
  /\ restartPending (runTimer AutoContinue None 300 (snd (stop 250 ended)))
     = true.
Proof.
  split; [reflexivity|].
  pose proof (stop_keeps_pending_restart 250 (step 200 (OnEnd 0) active)
                _ eq_refl) as [_ Hresume].
  exact (proj1 (proj2 (Hresume None 300))).
Defined.

(** ** Results, again *)

Lemma transcripts_blank_from interim final rs :
  Forall (fun r => transcript r = "") rs ->
  fold_left
    (fun '(interimTranscript, finalTranscript) result =>
       if isFinal result
       then (interimTranscript, finalTranscript +:+ transcript result)
       else (interimTranscript +:+ transcript result, finalTranscript))
    rs (interim, final)
  = (interim, final).
Proof.
  intros Hall. revert interim final.
  induction Hall as [|r rs Hr _ IH]; intros interim final; simpl;
    [reflexivity|].
  rewrite Hr, !append_empty_r. destruct (isFinal r); apply IH.
Qed.

(** X16.  A result event that brings no text (no result from [resultIndex] on,
    or only empty transcripts) changes nothing but the time of the last
    result: nothing is published, emitted or scheduled. *)
Theorem handleResult_without_text event now w :
  Forall (fun r => transcript r = "")
         (drop (resultIndex event) (results event)) ->
  handleResult event now w = with_manager (set_lastResultTime now) w.
Proof.
  intros Hblank. rewrite handleResult_passes_fence. cbn zeta.
  unfold transcripts. rewrite (transcripts_blank_from _ _ _ Hblank).
  reflexivity.
Qed.

Lemma handleResult_without_text_witness :
  handleResult {| resultIndex := 2; results := results hello |} 200 active
  = with_manager (set_lastResultTime 200) active.
Proof.
  apply (handleResult_without_text
           {| resultIndex := 2; results := results hello |} 200 active).
  constructor.
Defined.

Lemma handleResult_manager event now w :
  let m := manager (handleResult event now w) in
  lastResultTime m = now
  /\ isRecognizing m = isRecognizing (manager w)
  /\ sessionStartTime m = sessionStartTime (manager w)
  /\ sessionId m = sessionId (manager w)
  /\ watchdogTimer m = watchdogTimer (manager w)
  /\ errorCount m = errorCount (manager w)
  /\ manualStop m = manualStop (manager w)
  /\ recognition m = recognition (manager w)
  /\ config m = config (manager w).
Proof.
  rewrite handleResult_passes_fence. cbn zeta.
  unfold processFinalResult.
  destruct (truthy (fst (transcripts event)));
    destruct (truthy (snd (transcripts event))); simpl;
    repeat match goal with
           | |- context [if ?b then _ else _] => destruct b; simpl
           end;
    repeat split; reflexivity.
Qed.

(** X17.  A result keeps the watchdog quiet: for [deadTime] after a result
    callback, a tick of a session that has not reached [maxSessionTime]
    does nothing. *)
Theorem result_postpones_restart event seen now w :
  now - seen <= deadTime (config (manager w)) ->
  now - sessionStartTime (manager w) <= maxSessionTime (config (manager w)) ->
  watchdogTick now (handleResult event seen w) = handleResult event seen w.
Proof.
  intros Hdead Hsession.
  pose proof (handleResult_manager event seen w)
    as (Hlast & _ & Hstart & _ & _ & _ & _ & _ & Hcfg).
  cbn zeta in *.
  apply watchdogTick_calm. right.
  unfold isResultTimeout, isSessionTimeout.
  rewrite Hlast, Hstart, Hcfg.
  split; apply Z.ltb_ge; assumption.
Qed.

Lemma result_postpones_restart_witness :
  watchdogTick 5200 (handleResult hello 200 active)
  = handleResult hello 200 active.
Proof.
  apply (result_postpones_restart hello 200 5200 active);
    vm_compute; discriminate.
Defined.

(** ** Merging into the recognition section *)

Lemma readField_assign probe r u :
  readField probe (assign r u)
  = if sameField probe u then u else readField probe r.
Proof. destruct probe, u; reflexivity. Qed.

Lemma readField_merge probe updates r :
  readField probe (fold_left assign updates r)
  = match lastWrite probe updates with
    | Some u => u
    | None => readField probe r
    end.
Proof.
  unfold lastWrite.
  induction updates as [|u updates IH] using rev_ind; [reflexivity|].
  rewrite fold_left_app, rev_app_distr. simpl.
  rewrite readField_assign.
  destruct (sameField probe u); [reflexivity|exact IH].
Qed.

(** X18.  [updateRecognitionState] is a shallow merge: every field the object
    names ends with the value of the last property that names it, every
    other field keeps its value, [recognitionStateChanged] carries the
    merged section, and nothing else in the store or the controller
    changes. *)
Theorem updateRecognitionState_merge updates w :
  let w' := updateRecognitionState updates w in
  (forall probe,
     readField probe (recognitionState (store w'))
     = match lastWrite probe updates with
       | Some u => u
       | None => readField probe (recognitionState (store w))
       end)
  /\ rec_lastResultTime (recognitionState (store w'))
     = rec_lastResultTime (recognitionState (store w))
  /\ trace w'
     = Emit_recognitionStateChanged (recognitionState (store w')) :: trace w
  /\ manager w' = manager w
  /\ timers w' = timers w
  /\ textHistory (store w') = textHistory (store w)
  /\ lastError (store w') = lastError (store w)
  /\ cfg_language (store w') = cfg_language (store w)
  /\ cfg_maxTextLines (store w') = cfg_maxTextLines (store w).
Proof.
  intros w'. subst w'. unfold updateRecognitionState. simpl.
  split; [intros probe; apply readField_merge|].
  split; [|repeat split; reflexivity].
  generalize (recognitionState (store w)).
  induction updates as [|u updates IH] using rev_ind; intros r;
    [reflexivity|].
  rewrite fold_left_app. simpl. rewrite <- (IH r).
  destruct u; reflexivity.
Qed.

(** ** Error codes *)



(** ** The text history *)

(** A turn of the event loop adds effects to the trace, and leaves the
    history alone or puts one entry in front of it. *)
Lemma step_history now i w :
  trace w `suffix_of` trace (step now i w)
  /\ (textHistory (store (step now i w)) = textHistory (store w)
      \/ appended now w (step now i w)).
Proof.
  destruct w as [[rec isRec sid wd lrt sst ec pt ms cfg]
                   [cl cm rs th le] ts nh tr sup cons hs rg dr].
  unfold appended. simpl. destruct i.
  all: crush_controller.
  all: split; [solve [repeat first [reflexivity | apply suffix_cons_r]]|].
  all: first
         [ left; reflexivity
         | right; eexists; split; [apply negb_false_iff; eassumption|];
           split; [reflexivity|];
           split; solve [repeat first [ apply list_elem_of_here
                                      | apply list_elem_of_further ]] ].
Qed.

Lemma unshift_capped_Forall (P : TextHistoryEntry -> Prop) maxLines e
    history :
  P e -> Forall P history -> Forall P (unshift_capped maxLines e history).
Proof.
  intros He Hh. unfold unshift_capped.
  destruct ((0 <? maxLines)
            && (maxLines <? Z.of_nat (length (e :: history)))).
  - apply Forall_take. constructor; assumption.
  - constructor; assumption.
Qed.

Lemma recorded_later w w' e :
  trace w `suffix_of` trace w' -> recorded w e -> recorded w' e.
Proof.
  intros [effects Heq] (Hwf & He & Ht). unfold recorded. rewrite Heq.
  split; [exact Hwf|]. split; apply elem_of_app; right; assumption.
Qed.

Lemma step_recorded now i w :
  Forall (recorded w) (textHistory (store w)) ->
  Forall (recorded (step now i w)) (textHistory (store (step now i w))).
Proof.
  intros Hw.
  destruct (step_history now i w) as [Hsuffix [Hsame | Hnew]].
  - rewrite Hsame. eapply Forall_impl; [exact Hw|].
    intros e. apply recorded_later. exact Hsuffix.
  - destruct Hnew as (text & Htext & Hhistory & Hemit & Htrigger).
    rewrite Hhistory. apply unshift_capped_Forall.
    + split; [|split; [exact Hemit|exact Htrigger]].
      split; [exact Htext|]. split; [apply trimText_idempotent|reflexivity].
    + eapply Forall_impl; [exact Hw|].
      intros e. apply recorded_later. exact Hsuffix.
Qed.

(** X21.  Every entry of the history, in every world the controller can reach,
    is one [processFinalResult] made: its text is not empty and has no
    white space around it, its id is a [text] id, and both
    [textHistoryChanged], with the entry, and [textRecognized], with its
    text, were raised for it. *)
Theorem history_recorded supported random language maxTextLines born
    inputs :
  let w := run inputs
             (construct supported random language maxTextLines born) in
  Forall (recorded w) (textHistory (store w)).
Proof.
  apply (run_invariant
           (fun w => Forall (recorded w) (textHistory (store w)))).
  - intros now i w. apply step_recorded.
  - unfold construct, initializeRecognition.
    destruct supported; simpl; constructor.
Qed.

Lemma newest_first_take n history :
  newest_first history -> newest_first (take n history).
Proof.
  revert n. induction history as [|e1 history IH]; intros n H.
  - destruct n; exact I.
  - destruct n as [|n]; [exact I|].
    destruct H as [Hhead Hrest]. cbn [take]. split.
    + destruct history as [|e2 history]; [destruct n; exact I|].
      destruct n; [exact I|exact Hhead].
    + apply IH. exact Hrest.
Qed.

Lemma run_newest_first inputs : forall clock w,
  chronological clock inputs ->
  Forall (fun e => timestamp e <= clock) (textHistory (store w)) ->
  newest_first (textHistory (store w)) ->
  newest_first (textHistory (store (run inputs w))).
Proof.
  induction inputs as [|[now i] inputs IH]; intros clock w Hclock Hold Hw;
    [exact Hw|].
  destruct Hclock as [Hnow Hclock]. cbn [run].
  assert (Hold' : Forall (fun e => timestamp e <= now)
                         (textHistory (store w))).
  { eapply Forall_impl; [exact Hold|]. simpl. intros e He. lia. }
  apply (IH now _ Hclock);
    destruct (step_history now i w) as [_ [Hsame | Hnew]].
  - rewrite Hsame. exact Hold'.
  - destruct Hnew as (text & _ & Hhistory & _).
    rewrite Hhistory. apply unshift_capped_Forall; [simpl; lia|exact Hold'].
  - rewrite Hsame. exact Hw.
  - destruct Hnew as (text & _ & Hhistory & _).
    rewrite Hhistory. unfold unshift_capped.
    assert (Hcons : newest_first
                      ({| entry_id := {| id_prefix := "text"; id_time := now;
                                         id_random := rng w (draws w) |};
                          timestamp := now; originalText := trimText text;
                          language := cfg_language (store w) |}
                       :: textHistory (store w))).
    { split; [|exact Hw].
      destruct (textHistory (store w)) as [|e2 rest]; [exact I|].
      apply Forall_cons in Hold' as [He2 _]. exact He2. }
    destruct (_ && _); [apply newest_first_take|]; exact Hcons.
Qed.

(** X22.  While the clock does not go back, the history is in the order of its
    time stamps, the newest entry first. *)
Theorem history_newest_first supported random language maxTextLines born
    inputs :
  chronological born inputs ->
  newest_first
    (textHistory
       (store (run inputs
                 (construct supported random language maxTextLines born)))).
Proof.
  intros Hclock. apply (run_newest_first inputs born _ Hclock).
  - unfold construct, initializeRecognition.
    destruct supported; simpl; constructor.
  - unfold construct, initializeRecognition. destruct supported; exact I.
Qed.

Lemma history_newest_first_witness :
  let inputs := [ (10, CallStart); (110, TimerFired 0 None);
                  (150, OnStart 0); (200, OnResult 0 hello);
                  (300, OnResult 0 thanks) ] in
  chronological 0 inputs
  /\ map timestamp (textHistory (store (run inputs fresh))) = [300; 200]
  /\ newest_first (textHistory (store (run inputs fresh))).
Proof.
  assert (Hclock : chronological 0
            [ (10, CallStart); (110, TimerFired 0 None);
              (150, OnStart 0); (200, OnResult 0 hello);
              (300, OnResult 0 thanks) ]).
  { simpl. repeat split; lia. }
  split; [exact Hclock|]. split; [reflexivity|].
  exact (history_newest_first true random0 (Some "en-US") 50 0 _ Hclock).
Defined.

(** ** The dedup window and its timeouts *)

Lemma handles_below_weaken bound bound' hs :
  (bound <= bound')%nat -> handles_below bound hs -> handles_below bound' hs.
Proof. destruct hs as [|h hs]; simpl; [auto|]. intros ? [? ?]. split; [lia|auto]. Qed.

Lemma removeTimer_absent h ts :
  handles_below h (map handle ts) -> removeTimer h ts = ts.
Proof.
  revert h. induction ts as [|t ts IH]; intros h; simpl; [reflexivity|].
  intros [Hlt Hrest].
  destruct (Nat.eqb_spec (handle t) h) as [Heq|_]; [lia|]. simpl.
  f_equal. apply IH. apply (handles_below_weaken (handle t)); [lia|exact Hrest].
Qed.

Lemma handles_below_removeTimer h bound ts :
  handles_below bound (map handle ts) ->
  handles_below bound (map handle (removeTimer h ts)).
Proof.
  revert bound. induction ts as [|t ts IH]; intros bound; simpl; [auto|].
  intros [Hlt Hrest].
  destruct (Nat.eqb (handle t) h); simpl.
  - apply IH. apply (handles_below_weaken (handle t)); [lia|exact Hrest].
  - split; [exact Hlt|]. apply IH. exact Hrest.
Qed.

(** With distinct handles, a timeout that fires takes no other expiry
    with it. *)
Lemma expiries_removeTimer_keeps h ts t x : forall bound,
  handles_below bound (map handle ts) ->
  findTimer h ts = Some t ->
  action t <> ExpireProcessedText x ->
  x ∈ map fst (expiries ts) ->
  x ∈ map fst (expiries (removeTimer h ts)).
Proof.
  unfold findTimer.
  induction ts as [|t0 ts IH]; intros bound; simpl; [discriminate|].
  intros [Hlt Hrest] Hfind Hother Hx.
  destruct (Nat.eqb_spec (handle t0) h) as [Heq|Hne]; simpl.
  - injection Hfind as ->. subst h.
    rewrite (removeTimer_absent _ _ Hrest).
    destruct (action t) eqn:Ha; try exact Hx.
    simpl in Hx. apply elem_of_cons in Hx as [->|Hx]; [congruence|exact Hx].
  - specialize (IH _ Hrest Hfind Hother).
    destruct (action t0); simpl in *; auto.
    apply elem_of_cons in Hx as [->|Hx]; [left|right; auto].
Qed.

Lemma step_window_inv now i w : window_inv w -> window_inv (step now i w).
Proof.
  destruct w as [[rec isRec sid wd lrt sst ec pt ms cfg]
                   [cl cm rs th le] ts nh tr sup cons hs rg dr].
  unfold window_inv, timers_ordered, window_complete, window_trimmed.
  simpl. intros (Hord & Hwin & Htrim). destruct i.
  all: crush_controller.
  all: split;
    [ simpl; repeat split; try lia;
      solve [ auto using handles_below_removeTimer
            | eapply handles_below_weaken;
              [|eauto using handles_below_removeTimer]; lia ]
    | split ].
  all: try solve [auto].
  all: intros x Hx.
  all: try solve [ eapply expiries_removeTimer_keeps;
                   [exact Hord|eassumption|congruence|auto] ].
  all: match goal with
       | Hx : _ ∈ {[ _ ]} ∪ _ |- _ =>
           apply elem_of_union in Hx as [Hx|Hx];
           [apply elem_of_singleton in Hx as ->|]
       | Hx : _ ∈ _ ∖ {[ _ ]} |- _ =>
           apply elem_of_difference in Hx as [Hx Hne]
       end.
  all: try solve [ auto | left | right; auto
                 | split; [apply negb_false_iff; assumption
                          |apply trimText_idempotent] ].
  eapply expiries_removeTimer_keeps; [exact Hord|eassumption| |auto].
  intros Hsame.
  match goal with
  | H : action _ = ExpireProcessedText _ |- _ =>
      rewrite H in Hsame; injection Hsame as ->
  end.
  apply Hne, elem_of_singleton. reflexivity.
Qed.

Lemma construct_window_inv supported random language maxTextLines now :
  window_inv (construct supported random language maxTextLines now).
Proof.
  unfold construct, initializeRecognition.
  destruct supported; simpl; (split; [exact I|]);
    split; intros text Htext; simpl in Htext; set_solver.
Qed.

Lemma handles_below_In bound ts t :
  handles_below bound (map handle ts) -> In t ts -> (handle t < bound)%nat.
Proof.
  revert bound. induction ts as [|t0 ts IH]; simpl; intros bound; [tauto|].
  intros [Hlt Hrest] [->|Hin]; [exact Hlt|].
  specialize (IH _ Hrest Hin). lia.
Qed.

(** With distinct handles, the handle of a pending timeout finds it. *)
Lemma findTimer_self bound ts t :
  handles_below bound (map handle ts) -> In t ts ->
  findTimer (handle t) ts = Some t.
Proof.
  unfold findTimer. revert bound.
  induction ts as [|t0 ts IH]; simpl; intros bound; [tauto|].
  intros [Hlt Hrest] [->|Hin].
  - rewrite Nat.eqb_refl. reflexivity.
  - pose proof (handles_below_In _ _ _ Hrest Hin).
    destruct (Nat.eqb_spec (handle t0) (handle t)) as [Heq|_]; [lia|].
    exact (IH _ Hrest Hin).
Qed.

Lemma expiries_In x ts :
  x ∈ map fst (expiries ts) ->
  exists t, In t ts /\ action t = ExpireProcessedText x.
Proof.
  induction ts as [|t0 ts IH]; simpl; intros Hx; [inversion Hx|].
  destruct (action t0) eqn:Ha;
    try (destruct (IH Hx) as (t & Hin & Ht); exists t; auto).
  simpl in Hx. apply elem_of_cons in Hx as [->|Hx].
  - exists t0. auto.
  - destruct (IH Hx) as (t & Hin & Ht). exists t. auto.
Qed.

(** X23.  No text stays in the dedup window for ever.  In every world the
    controller can reach, a text of the window has its expiry pending
    under a handle of its own; once that timeout is due and fires, the
    text, and no other, leaves the window, and the next final result
    with this text makes a history entry again. *)
Theorem window_reopens supported random language maxTextLines born inputs
    text :
  let w := run inputs
             (construct supported random language maxTextLines born) in
  text ∈ processedTexts (manager w) ->
  exists t,
    findTimer (handle t) (timers w) = Some t
    /\ action t = ExpireProcessedText text
    /\ forall startThrows now later,
         due t <= now ->
         let w' := step now (TimerFired (handle t) startThrows) w in
         processedTexts (manager w') = processedTexts (manager w) ∖ {[ text ]}
         /\ entriesFor text (trace (processFinalResult text later w'))
            = S (entriesFor text (trace w')).
Proof.
  intros w Htext.
  assert (Hinv : window_inv w).
  { apply (run_invariant window_inv).
    - intros now i w0. apply step_window_inv.
    - apply construct_window_inv. }
  destruct Hinv as (Hord & Hwin & Htrim).
  destruct (expiries_In _ _ (Hwin _ Htext)) as (t & Hin & Ha).
  pose proof (findTimer_self _ _ _ Hord Hin) as Hfind.
  destruct (Htrim _ Htext) as [Htruthy Htrimmed].
  exists t. split; [exact Hfind|]. split; [exact Ha|].
  intros startThrows now later Hdue w'.
  assert (Hgone : processedTexts (manager w')
                  = processedTexts (manager w) ∖ {[ text ]}).
  { subst w'. cbn [step]. rewrite Hfind.
    destruct (Z.leb_spec (due t) now) as [_|Hlt]; [|lia].
    rewrite Ha. reflexivity. }
  split; [exact Hgone|].
  destruct (processFinalResult_cases text later w')
    as [[[Hempty|Hdup] _] | (_ & _ & _ & _ & Hn & _)].
  - rewrite Htrimmed in Hempty. congruence.
  - rewrite Htrimmed, Hgone in Hdup. set_solver.
  - rewrite Htrimmed in Hn. rewrite (Hn text), String.eqb_refl. reflexivity.
Qed.

Lemma window_reopens_witness :
  let w := run [ (10, CallStart); (110, TimerFired 0 None);
                 (150, OnStart 0); (200, OnResult 0 hello_world) ] fresh in
  "hello world" ∈ processedTexts (manager w)
  /\ exists t,
       findTimer (handle t) (timers w) = Some t
       /\ action t = ExpireProcessedText "hello world"
       /\ forall startThrows now later,
            due t <= now ->
            let w' := step now (TimerFired (handle t) startThrows) w in
            processedTexts (manager w')
            = processedTexts (manager w) ∖ {[ "hello world" ]}
            /\ entriesFor "hello world"
                 (trace (processFinalResult "hello world" later w'))
               = S (entriesFor "hello world" (trace w')).
Proof.
  assert (Hin : "hello world"
                ∈ processedTexts
                    (manager
                       (run [ (10, CallStart); (110, TimerFired 0 None);
                              (150, OnStart 0);
                              (200, OnResult 0 hello_world) ] fresh))).
  { apply (bool_decide_unpack _). vm_compute. exact I. }
  split; [exact Hin|].
  exact (window_reopens true random0 (Some "en-US") 50 0 _ "hello world" Hin).
Defined.

(** ** The engine ends by itself *)

(** X24.  When the engine ends without [stop()] having been called, the
    controller keeps the session shown as active, and restarts the same
    engine instance by itself: [restartDelay] later it stops it once
    more and, another [restartDelay] later, starts it in the language of
    the store.  When the engine then reports its start, the controller
    recognizes again, under a new session id and with a fresh error
    budget; the texts it has published, the history and the dedup window
    are as they were. *)
Theorem onend_auto_continue now t1 t2 t3 w e :
  recognition (manager w) = Some e ->
  manualStop (manager w) = false ->
  now + restartDelay (config (manager w)) <= t1 ->
  t1 + restartDelay (config (manager w)) <= t2 ->
  let w1 := onend now w in
  let w2 := step t1 (TimerFired (nextHandle w) None) w1 in
  let w3 := step t2 (TimerFired (S (nextHandle w)) None) w2 in
  let w4 := onstart t3 w3 in
  (isRecognizing (manager w1) = false
   /\ watchdogTimer (manager w1) = None
   /\ isActive (recognitionState (store w1)) = true
   /\ isListening (recognitionState (store w1)) = false)
  /\ trace w3
     = [ Engine_start (instance e) (languageOrDefault w);
         SetTimeout EngineStart (restartDelay (config (manager w)));
         Engine_stop (instance e);
         SetTimeout AutoContinue (restartDelay (config (manager w)));
         Emit_recognitionStateChanged (recognitionState (store w1)) ]
       ++ trace w
  /\ (isRecognizing (manager w4) = true
      /\ recognition (manager w4) = Some (set_lang (languageOrDefault w) e)
      /\ sessionId (manager w4)
         = Some {| id_prefix := "session"; id_time := t3;
                   id_random := rng w (draws w) |}
      /\ errorCount (manager w4) = 0
      /\ isActive (recognitionState (store w4)) = true
      /\ isListening (recognitionState (store w4)) = true)
  /\ (finalText (recognitionState (store w4))
      = finalText (recognitionState (store w))
      /\ currentText (recognitionState (store w4))
         = currentText (recognitionState (store w))
      /\ textHistory (store w4) = textHistory (store w)
      /\ processedTexts (manager w4) = processedTexts (manager w)).
Proof.
  intros Hrec Hms H1 H2 w1 w2 w3 w4.
  apply Z.leb_le in H1, H2.
  destruct w as [[rec isRec sid wd lrt sst ec pt ms cfg]
                   [cl cm rs th le] ts nh tr sup cons hs rg dr].
  simpl in Hrec, Hms, H1, H2. subst rec ms.
  pose proof (Nat.eqb_refl nh) as Hnh.
  vm_compute in H1, H2, Hnh.
  pose proof (eq_refl w1) as E1. unfold w1 at 2 in E1.
  pose proof (eq_refl w2) as E2. unfold w2 at 2 in E2.
  pose proof (eq_refl w3) as E3. unfold w3 at 2 in E3.
  pose proof (eq_refl w4) as E4. unfold w4 at 2 in E4.
  clearbody w4 w3 w2 w1.
  vm_compute in E1. subst w1.
  vm_compute in E2. rewrite Hnh, H1 in E2. vm_compute in E2.
  rewrite ?Hnh in E2. vm_compute in E2. subst w2.
  vm_compute in E3. rewrite Hnh, H2 in E3. vm_compute in E3.
  rewrite ?Hnh in E3. vm_compute in E3. subst w3.
  vm_compute in E4. subst w4.
  vm_compute.
  repeat split; reflexivity.
Qed.

Lemma onend_auto_continue_witness :
  let w3 := run [ (200, OnEnd 0); (300, TimerFired 2 None);
                  (400, TimerFired 3 None) ] active in
  engineStarts (trace w3) = S (engineStarts (trace active))
  /\ isRecognizing (manager (onstart 450 w3)) = true
  /\ textHistory (store (onstart 450 w3)) = textHistory (store active).
Proof.
  pose proof (onend_auto_continue 200 300 400 450 active
                {| instance := 0; eng_continuous := true;
                   eng_interimResults := true; eng_maxAlternatives := 1;
                   lang := Some "en-US" |}
                eq_refl eq_refl ltac:(vm_compute; discriminate)
                ltac:(vm_compute; discriminate)) as H.
  cbv zeta in H.
  destruct H as (_ & Htrace & (Hrec & _) & (_ & _ & Hhistory & _)).
  split; [exact (f_equal engineStarts Htrace)|].
  split; [exact Hrec|exact Hhistory].
Defined.
